(** * The dispatcher of devazuka/dispatch (src/dispatcher.ts)

    A shallow embedding of the dispatcher: the cooldown codec, the
    scheduler, the enqueue and delivery handlers and the HTTP routing,
    followed by the properties of the specification that concern them.

    Conventions of the embedding.
    - A JS object used as a record of own properties ([TimersInfo],
      [QUEUES], [CLIENTS], [localStorage]) and the JS [Map] [REQUESTS] are
      association lists in insertion order, which is the order
      [Object.entries], [Object.keys] and [Map.values] enumerate string
      keys in.  Writing a key that is present keeps its position.
      Queue names and client ids are taken not to be member names of
      [Object.prototype] or of the [Storage] interface, nor canonical
      array indices (which JS would enumerate first).
    - Epoch milliseconds ([Date.now()], [mtime], [unlockAt], [delay]) are
      integers, [Z].  [performance.now()] is a finite double, compared
      only with [<]; it is a rational, [Q].
    - [Date.now()] is read several times by one handler; every reading is
      an argument of its own ([Clock]), except in the loops of the sweep
      and of the status report, which are given one reading for all
      their turns.
    - [String] and [Number] are modelled on decimal integers, which is
      what the dispatcher writes to the cooldown store and what the
      fetchers send in [x-status].
    - [Math.random()], in the fetcher, is a finite double in [0, 1): a
      rational; the remainder by an array length is exact on it.
    - Each handler runs as one atomic step from state to state; the
      interleaving at [await] points is not represented, nor is the later
      life of a response stream (its [pull] and [cancel] callbacks). *)

From Stdlib Require Import List String Ascii ZArith QArith Bool Lia.
From Stdlib Require Import DecimalString DecimalZ Qround.
Import ListNotations.

Local Open Scope string_scope.
Local Open Scope Z_scope.

(** ** JS values used by the code *)

(** Own properties of an object, in insertion order. *)
Definition obj (V : Type) : Type := list (string * V).

Fixpoint obj_get {V} (k : string) (o : obj V) : option V :=
  match o with
  | [] => None
  | (k', v) :: o' => if String.eqb k k' then Some v else obj_get k o'
  end.

(** [o[k] = v]: overwrite in place, or append a new property. *)
Fixpoint obj_set {V} (k : string) (v : V) (o : obj V) : obj V :=
  match o with
  | [] => [(k, v)]
  | (k', v') :: o' =>
      if String.eqb k k' then (k', v) :: o' else (k', v') :: obj_set k v o'
  end.

(** [delete o[k]], [Map.delete], [removeItem]: the key is no longer
    present. *)
Fixpoint obj_delete {V} (k : string) (o : obj V) : obj V :=
  match o with
  | [] => []
  | (k', v') :: o' =>
      if String.eqb k k' then obj_delete k o' else (k', v') :: obj_delete k o'
  end.

Definition keys {V} (o : obj V) : list string := map fst o.
Definition values {V} (o : obj V) : list V := map snd o.

(** [String(n)] for an integer [n] (decimal digits, leading [-]); JS
    prints integers this way below 1e21 in absolute value. *)
Definition String_of_number (n : Z) : string :=
  NilZero.string_of_int (Z.to_int n).

(** [Number(s)] on the decimal-integer fragment: the empty string is 0,
    an optionally negated digit string is its value, anything else is
    [NaN] ([None]).  The strings read back by the dispatcher are the ones
    [String_of_number] wrote. *)
Definition Number (s : string) : option Z :=
  match s with
  | "" => Some 0
  | _ => option_map Z.of_int (NilZero.int_of_string s)
  end.

(** [Number(null)] is 0: a header that is absent. *)
Definition Number_opt (s : option string) : option Z :=
  match s with
  | None => Some 0
  | Some s => Number s
  end.

(** Truthiness of a number: neither [NaN] nor zero. *)
Definition truthy_num (n : option Z) : bool :=
  match n with
  | None => false
  | Some v => negb (v =? 0)
  end.

(** Truthiness of a string or of [null]/[undefined]. *)
Definition truthy_str (s : option string) : bool :=
  match s with
  | None | Some "" => false
  | Some _ => true
  end.

(** [Array.prototype.join()] with the default separator. *)
Fixpoint join (l : list string) : string :=
  match l with
  | [] => ""
  | [x] => x
  | x :: l' => x ++ "," ++ join l'
  end.

(** ** Cooldown codec *)

Definition TimersInfo : Type := obj Z.

(** An entry [[name, unlockAt]] is an array; [join] stringifies it with
    [Array.prototype.toString], that is with a comma. *)
Definition entry_toString (e : string * Z) : string :=
  fst e ++ "," ++ String_of_number (snd e).

Definition encodeTimers (timers : TimersInfo) : string :=
  join (map entry_toString timers).

(** The loop variables of [decodeTimers]. *)
Record DecodeState : Type := mkDecode {
  queueName : string;
  currentStr : string;
  timers : TimersInfo
}.

(** The branch taken on a comma and past the last character. *)
Definition decode_token (now : Z) (d : DecodeState) : DecodeState :=
  if String.eqb (queueName d) "" then
    mkDecode (currentStr d) "" (timers d)
  else
    (* unlockAt && unlockAt > now && (timers[queueName] = unlockAt) *)
    let unlockAt := Number (currentStr d) in
    mkDecode "" ""
      (match unlockAt with
       | Some v =>
           if truthy_num unlockAt && (now <? v)
           then obj_set (queueName d) v (timers d)
           else timers d
       | None => timers d
       end).

Definition decode_char (c : ascii) (d : DecodeState) : DecodeState :=
  mkDecode (queueName d) (currentStr d ++ String c "") (timers d).

(** [while (++i <= encodedTimers.length)]: one step per character and a
    last one at [i = length], where [c] is [undefined]. *)
Fixpoint decode_loop (now : Z) (s : string) (d : DecodeState) : DecodeState :=
  match s with
  | EmptyString => decode_token now d
  | String c s' =>
      if Ascii.eqb c ","
      then decode_loop now s' (decode_token now d)
      else decode_loop now s' (decode_char c d)
  end.

Definition decodeTimers (now : Z) (encodedTimers : option string) : TimersInfo :=
  if truthy_str encodedTimers then
    match encodedTimers with
    | Some s => timers (decode_loop now s (mkDecode "" "" []))
    | None => []
    end
  else [].

(** ** Data model *)

Record RequestQueue : Type := mkQueue {
  name : string;
  delay : Z
}.

(** A waiter: the [resolve] function of the promise that feeds an open
    response stream (promises are numbered as they are allocated), or the
    [reply] address taken from the enqueue body. *)
Inductive PendingRequestHandler : Type :=
| Resolve (promise : nat)
| Reply (url : string).

Record PendingRequest : Type := mkRequest {
  key : string;
  href : string;
  headers : option (obj string);
  createdAt : Q;
  startedAt : option Z;
  queue : string;
  handlers : list PendingRequestHandler;
  attempts : Z
}.

Record Client : Type := mkClient {
  client_id : string;
  activeAt : Z;
  started : Z;
  finished : Z
}.

(** What [file.stat()] and the file's bytes give for a path. *)
Record FsEntry : Type := mkEntry {
  isFile : bool;
  mtime : option Z;
  birthtime : option Z;
  content : list Byte.byte
}.

(** The module-level tables, the persisted stores and the allocation
    counter of promises. *)
Record State : Type := mkState {
  QUEUES : obj RequestQueue;
  REQUESTS : obj PendingRequest;
  CLIENTS : obj Client;
  localStorage : obj string;
  files : obj FsEntry;
  promises : nat
}.

Definition TIMEOUT : Z := 10 * 1000.

Definition with_REQUESTS (r : obj PendingRequest) (st : State) : State :=
  mkState (QUEUES st) r (CLIENTS st) (localStorage st) (files st) (promises st).
Definition with_QUEUES (q : obj RequestQueue) (st : State) : State :=
  mkState q (REQUESTS st) (CLIENTS st) (localStorage st) (files st) (promises st).
Definition with_CLIENTS (c : obj Client) (st : State) : State :=
  mkState (QUEUES st) (REQUESTS st) c (localStorage st) (files st) (promises st).
Definition with_localStorage (l : obj string) (st : State) : State :=
  mkState (QUEUES st) (REQUESTS st) (CLIENTS st) l (files st) (promises st).
Definition with_files (f : obj FsEntry) (st : State) : State :=
  mkState (QUEUES st) (REQUESTS st) (CLIENTS st) (localStorage st) f (promises st).
Definition with_promises (n : nat) (st : State) : State :=
  mkState (QUEUES st) (REQUESTS st) (CLIENTS st) (localStorage st) (files st) n.

(** ** Periodic sweep of the cooldown store *)

Definition cleanup_entry (now : Z) (ls : obj string) (clientId : string)
  : obj string :=
  let before := obj_get clientId ls in
  let after := encodeTimers (decodeTimers now before) in
  if String.eqb after "" then obj_delete clientId ls
  else if match before with
          | Some b => String.eqb b after
          | None => false
          end then ls
  else obj_set clientId after ls.

Definition cleanupLocalStorageTimers (now : Z) (st : State) : State :=
  with_localStorage
    (fold_left (cleanup_entry now) (keys (localStorage st)) (localStorage st)) st.

(** ** Scheduler *)

Definition Qltb (x y : Q) : bool := negb (Qle_bool y x).

(** [now - req.startedAt < TIMEOUT]; with [startedAt] undefined the
    difference is [NaN] and the comparison is false. *)
Definition in_flight (now : Z) (req : PendingRequest) : bool :=
  match startedAt req with
  | None => false
  | Some s => now - s <? TIMEOUT
  end.

(** [timers[req.queue]] as a condition. *)
Definition cooling (timers : TimersInfo) (req : PendingRequest) : bool :=
  truthy_num (obj_get (queue req) timers).

(** [(oldest?.createdAt as number) < req.createdAt]; false while
    [oldest] is undefined. *)
Definition is_older (oldest : option PendingRequest) (req : PendingRequest)
  : bool :=
  match oldest with
  | None => false
  | Some o => Qltb (createdAt o) (createdAt req)
  end.

(** One turn of the loop over [REQUESTS.values()], on [(oldest, count)]. *)
Definition scan_step (now : Z) (timers : TimersInfo)
    (acc : option PendingRequest * Z) (req : PendingRequest)
  : option PendingRequest * Z :=
  let '(oldest, count) := acc in
  if in_flight now req then acc
  else if cooling timers req then acc
  else
    let count := count + 1 in
    if is_older oldest req then (oldest, count) else (Some req, count).

Definition scan (now : Z) (timers : TimersInfo) (reqs : list PendingRequest)
  : option PendingRequest * Z :=
  fold_left (scan_step now timers) reqs (None, 0).

(** A call either returns or throws. *)
Inductive outcome (A : Type) : Type :=
| Returned (a : A)
| Thrown (message : string).
Arguments Returned {A} a.
Arguments Thrown {A} message.

(** The object [{ next, count }]. *)
Record NextInQueue : Type := mkNext {
  next : option PendingRequest;
  count : Z
}.

(** [now_timers] is the reading of the clock inside [decodeTimers], [now]
    the one of the scheduler. *)
Definition getNextInQueue (now_timers now : Z) (st : State) (clientId : string)
  : outcome NextInQueue * State :=
  let timers := decodeTimers now_timers (obj_get clientId (localStorage st)) in
  let '(oldest, count) := scan now timers (values (REQUESTS st)) in
  match oldest with
  | None => (Returned (mkNext None 0), st)
  | Some o =>
      match obj_get (queue o) (QUEUES st) with
      | None => (Thrown "TypeError: queue is undefined", st)
      | Some q =>
          let timers := obj_set (name q) (now + delay q) timers in
          (Returned (mkNext (Some o) count),
           with_localStorage
             (obj_set clientId (encodeTimers timers) (localStorage st)) st)
      end
  end.

(** ** HTTP messages *)

(** The body of an enqueue after [request.json()] and [new URL(body.url)]
    ran: the fields of the URL and the caller's options. *)
Record PostBody : Type := mkPostBody {
  hostname : string;
  pathname : string;
  search : string;
  b_href : string;
  expire : option Z;
  b_headers : option (obj string);
  reply : option string
}.

(** An incoming request.  [r_json] is what parsing the body as an enqueue
    gives, [None] when [request.json()] or [new URL] throws. *)
Record Request : Type := mkHttpRequest {
  method : string;
  r_pathname : string;
  r_headers : obj string;
  arrayBuffer : list Byte.byte;
  r_json : option PostBody
}.

Record RequestStatus : Type := mkRequestStatus {
  s_queue : string;
  s_href : string;
  s_createdAt : Q;
  s_startedAt : option Z
}.

Inductive Body : Type :=
| Null
| Literal (text : string)
| FileStream (bytes : list Byte.byte)
| PromiseStream (promise : nat)
| FailJson (message : string) (status : Z)
| NextJson (key href : string) (headers : option (obj string)) (total : Z)
| StatusJson (clients : list Client) (timers : obj TimersInfo)
    (requests : list RequestStatus) (startAt : Z).

Record Response : Type := mkResponse {
  status : Z;
  res_headers : obj string;
  body : Body
}.

Definition dq : string := String (ascii_of_nat 34) "".

Definition json_headers : obj string := [("content-type", "application/json")].

Definition NOT_FOUND : Response :=
  mkResponse 404 json_headers
    (Literal ("{" ++ dq ++ "message" ++ dq ++ ":" ++ dq
              ++ "Not Found: Error 404" ++ dq ++ "}")).

Definition EMPTY : Response := mkResponse 204 [] Null.

Definition fail (status : Z) (message : string) : Response :=
  mkResponse status json_headers (FailJson message status).

(** The webhook request [sendReply] makes, and what a delivery does to
    the waiters. *)
Record WebhookPost : Type := mkPost {
  wp_url : string;
  wp_body : list Byte.byte;
  x_request_key : string;
  x_request_href : string;
  x_request_status : option Z
}.

Inductive Effect : Type :=
| Resolved (promise : nat) (value : list Byte.byte)
| SendReply (post : WebhookPost).

(** The readings of the clocks one run of a handler makes. *)
Record Clock : Type := mkClock {
  perf_now : Q;
  now_fresh : Z;
  now_client : Z;
  now_timers : Z;
  now_scan : Z;
  now_start : Z;
  now_write : Z
}.

(** ** File system *)

(** [Deno.mkdir(path, { recursive: true })]. *)
Definition mkdir (now : Z) (path : string) (fs : obj FsEntry)
  : outcome (obj FsEntry) :=
  match obj_get path fs with
  | None => Returned (obj_set path (mkEntry false (Some now) (Some now) []) fs)
  | Some e => if isFile e then Thrown "AlreadyExists" else Returned fs
  end.

(** [Deno.writeFile(path, data)]. *)
Definition writeFile (now : Z) (path : string) (data : list Byte.byte)
    (fs : obj FsEntry) : outcome (obj FsEntry) :=
  match obj_get path fs with
  | None => Returned (obj_set path (mkEntry true (Some now) (Some now) data) fs)
  | Some e =>
      if isFile e
      then Returned (obj_set path (mkEntry true (Some now) (birthtime e) data) fs)
      else Thrown "IsADirectory"
  end.

(** ** Webhook delivery *)

Inductive ReplyEvent : Type :=
| Fetch (post : WebhookPost)
| SetTimeout (ms : Z).

(** [sendReply(attempts)] against the statuses the recipient answers its
    successive requests with.  The result is what happened, in order, and
    whether the call returned; with no answer left the last request is
    still awaited. *)
Fixpoint sendReply (post : WebhookPost) (attempts : Z) (answers : list Z)
  : list ReplyEvent * bool :=
  match answers with
  | [] => ([Fetch post], false)
  | res_status :: answers' =>
      if negb (res_status =? 500) then ([Fetch post], true)
      else
        let wait :=
          if negb (attempts =? 0) then [SetTimeout (attempts * 750)] else [] in
        let '(events, returned) := sendReply post (attempts + 1) answers' in
        (Fetch post :: wait ++ events, returned)
  end.

(** ** Queue registry *)

Definition handler_eqb (a b : PendingRequestHandler) : bool :=
  match a, b with
  | Resolve p, Resolve q => Nat.eqb p q
  | Reply u, Reply v => String.eqb u v
  | _, _ => false
  end.

(** [Set.prototype.add]. *)
Definition set_add (h : PendingRequestHandler)
    (s : list PendingRequestHandler) : list PendingRequestHandler :=
  if existsb (handler_eqb h) s then s else s ++ [h].

Definition set_handlers (hs : list PendingRequestHandler)
    (req : PendingRequest) : PendingRequest :=
  mkRequest (key req) (href req) (headers req) (createdAt req)
    (startedAt req) (queue req) hs (attempts req).

(** The closure [push] of the queue [q]. *)
Definition push (perf : Q) (q : RequestQueue) (req : PendingRequest)
    (st : State) : PendingRequest * State :=
  let req' :=
    mkRequest (key req) (href req) (headers req) perf (startedAt req)
      (name q) [] 0 in
  (req', with_REQUESTS (obj_set (key req) req' (REQUESTS st)) st).

(** [registerQueue(name, delay, aliases)]. *)
Definition registerQueue (now : Z) (nm : string) (dl : Z)
    (aliases : list string) (st : State) : outcome (RequestQueue * State) :=
  match mkdir now nm (files st) with
  | Thrown m => Thrown m
  | Returned fs =>
      let q := mkQueue nm dl in
      Returned
        (q, with_QUEUES
              (fold_left (fun qs k => obj_set k q qs) (nm :: aliases)
                 (QUEUES st))
              (with_files fs st))
  end.

(** ** Handlers *)

Section Dispatcher.

(** [getKey]: base58 of the SHA-384 digest of the text. *)
Variable getKey : string -> string.

(** The reading of [Date.now()] at start-up. *)
Variable dispatcheStartAt : Z.

(** [handlers.add(h)] on the request stored under [k]: the [Set] is the
    one of the object in the table. *)
Definition add_handler (h : PendingRequestHandler) (k : string)
    (reqs : obj PendingRequest) : obj PendingRequest :=
  match obj_get k reqs with
  | Some r => obj_set k (set_handlers (set_add h (handlers r)) r) reqs
  | None => reqs
  end.

Definition buildResponse (st : State) (req : PendingRequest)
    (reply : option string) : Response * State :=
  let headers := [("x-request-key", key req)] in
  match (if truthy_str reply then reply else None) with
  | Some url =>
      (mkResponse 202 headers Null,
       with_REQUESTS (add_handler (Reply url) (key req) (REQUESTS st)) st)
  | None =>
      let p := promises st in
      (mkResponse 200 headers (PromiseStream p),
       with_promises (S p)
         (with_REQUESTS (add_handler (Resolve p) (key req) (REQUESTS st)) st))
  end.

(** The [try] block of [POST]: the cached body is returned, or the block
    falls through to the enqueue (no file, or a file past its expiry), or
    an error other than [NotFound] is answered with a 500. *)
Inductive CacheRead : Type :=
| Hit (res : Response)
| Miss
| Failed (res : Response).

(** [mtime || birthtime]. *)
Definition cachedDate (file : FsEntry) : option Z :=
  match mtime file with
  | Some d => Some d
  | None => birthtime file
  end.

Definition cached (key : string) (file : FsEntry) : Response :=
  mkResponse 200 [("x-from-cache", key)] (FileStream (content file)).

Definition read_cache (now : Z) (fs : obj FsEntry) (key : string)
    (expire : option Z) : CacheRead :=
  match obj_get key fs with
  | None => Miss
  | Some file =>
      if negb (isFile file) then Failed (fail 500 (key ++ " is not a file"))
      else
        match expire with
        | None => Hit (cached key file)
        | Some e =>
            if negb (truthy_num expire) then Hit (cached key file)
            else
              match cachedDate file with
              | None => Failed (fail 500 "unable to access updated time")
              | Some d => if now <? d + e then Hit (cached key file) else Miss
              end
        end
  end.

(** The last statement of [POST]: [buildResponse(queue.push(...), reply)]. *)
Definition enqueue (clk : Clock) (st : State) (queue : RequestQueue)
    (key : string) (b : PostBody) : Response * State :=
  let '(req, st') :=
    push (perf_now clk) queue
      (mkRequest key (b_href b) (b_headers b) 0%Q None "" [] 0) st in
  buildResponse st' req (reply b).

Definition POST (clk : Clock) (st : State) (queue : RequestQueue)
    (b : PostBody) : Response * State :=
  let key := name queue ++ "/" ++ getKey (pathname b ++ search b) in
  match obj_get key (REQUESTS st) with
  | Some req => buildResponse st req (reply b)
  | None =>
      match read_cache (now_fresh clk) (files st) key (expire b) with
      | Hit res => (res, st)
      | Failed res => (res, st)
      | Miss => enqueue clk st queue key b
      end
  end.

(** [a || b] on header values. *)
Definition or_else (a b : option string) : option string :=
  if truthy_str a then a else b.

Definition getClient (now : Z) (st : State) (request : Request)
  : option Client * State :=
  let headers := r_headers request in
  let clientId :=
    or_else (obj_get "x-client-id" headers)
      (or_else (obj_get "true-client-ip" headers)
         (or_else (obj_get "cf-connecting-ip" headers)
            (obj_get "x-forwared-for" headers))) in
  match (if truthy_str clientId then clientId else None) with
  | None => (None, st)
  | Some clientId =>
      let client :=
        match obj_get clientId (CLIENTS st) with
        | Some c => mkClient (client_id c) now (started c) (finished c)
        | None => mkClient clientId now 0 0
        end in
      (Some client, with_CLIENTS (obj_set clientId client (CLIENTS st)) st)
  end.

(** A field update of the object stored under [k]; the objects of
    [CLIENTS] and [REQUESTS] are stored under their own [id] and [key]. *)
Definition obj_update {V} (k : string) (f : V -> V) (o : obj V) : obj V :=
  match obj_get k o with
  | Some v => obj_set k (f v) o
  | None => o
  end.

Definition notify (req : PendingRequest) (key : string)
    (status : option Z) (body : list Byte.byte) (h : PendingRequestHandler)
  : Effect :=
  match h with
  | Resolve p => Resolved p body
  | Reply url => SendReply (mkPost url body key (href req) status)
  end.

Definition handleRequestResponse (clk : Clock) (st : State)
    (request : Request) (key : string)
  : outcome Response * State * list Effect :=
  match obj_get key (REQUESTS st) with
  | None => (Returned NOT_FOUND, st, [])
  | Some req =>
      let body := arrayBuffer request in
      let status := Number_opt (obj_get "x-status" (r_headers request)) in
      let '(client, st) := getClient (now_client clk) st request in
      let st :=
        match client with
        | Some client =>
            with_CLIENTS
              (obj_update (client_id client)
                 (fun c => mkClient (client_id c) (activeAt c) (started c)
                             (finished c + 1))
                 (CLIENTS st)) st
        | None => st
        end in
      let writePending :=
        match status with
        | Some 200 => writeFile (now_write clk) key body (files st)
        | _ => Returned (files st)
        end in
      let effects := map (notify req key status body) (handlers req) in
      let st := with_REQUESTS (obj_delete key (REQUESTS st)) st in
      match writePending with
      | Returned fs => (Returned EMPTY, with_files fs st, effects)
      | Thrown m => (Thrown m, st, effects)
      end
  end.

Definition handleRequestQueue (clk : Clock) (st : State) (request : Request)
  : Response * State :=
  match r_json request with
  | None => (fail 400 "invalid body", st)
  | Some body =>
      match obj_get (hostname body) (QUEUES st) with
      | Some queue => POST clk st queue body
      | None =>
          match registerQueue (now_write clk) (hostname body) 60000 [] st with
          | Returned (queue, st') => POST clk st' queue body
          | Thrown m => (fail 400 m, st)
          end
      end
  end.

Definition handleGetStatus (clk : Clock) (st : State) : Response :=
  let timers :=
    map (fun kv => (fst kv, decodeTimers (now_timers clk) (Some (snd kv))))
      (localStorage st) in
  let requests :=
    map (fun r => mkRequestStatus (queue r) (href r) (createdAt r) (startedAt r))
      (values (REQUESTS st)) in
  mkResponse 200 json_headers
    (StatusJson (values (CLIENTS st)) timers requests dispatcheStartAt).

Definition handleRequestNextInQueue (clk : Clock) (st : State)
    (request : Request) : outcome Response * State :=
  match getClient (now_client clk) st request with
  | (None, st) =>
      (Returned (fail 400 "expect the x-client-id header to be set"), st)
  | (Some client, st) =>
      match getNextInQueue (now_timers clk) (now_scan clk) st
              (client_id client) with
      | (Thrown m, st) => (Thrown m, st)
      | (Returned r, st) =>
          match next r with
          | None => (Returned EMPTY, st)
          | Some nxt =>
              let st :=
                with_CLIENTS
                  (obj_update (client_id client)
                     (fun c => mkClient (client_id c) (activeAt c)
                                 (started c + 1) (finished c))
                     (CLIENTS st)) st in
              let dispatch (r : PendingRequest) :=
                mkRequest (key r) (href r) (headers r) (createdAt r)
                  (Some (now_start clk)) (queue r) (handlers r)
                  (if truthy_num (startedAt r) then attempts r + 1
                   else attempts r) in
              let st :=
                with_REQUESTS (obj_update (key nxt) dispatch (REQUESTS st)) st in
              (Returned
                 (mkResponse 200 json_headers
                    (NextJson (key nxt) (href nxt) (headers nxt) (count r))),
               st)
          end
      end
  end.

(** [pathname.slice(1)]. *)
Definition slice1 (s : string) : string :=
  match s with
  | EmptyString => ""
  | String _ s' => s'
  end.

Definition httpHandler (clk : Clock) (st : State) (request : Request)
  : outcome Response * State * list Effect :=
  if String.eqb (method request) "POST" then
    if (1 <? Z.of_nat (String.length (r_pathname request)))
    then handleRequestResponse clk st request (slice1 (r_pathname request))
    else
      let '(res, st') := handleRequestQueue clk st request in
      (Returned res, st', [])
  else if String.eqb (method request) "GET" then
    if String.eqb (r_pathname request) "/status"
       || String.eqb (r_pathname request) "/status/"
    then (Returned (handleGetStatus clk st), st, [])
    else
      let '(res, st') := handleRequestNextInQueue clk st request in
      (res, st', [])
  else (Returned NOT_FOUND, st, []).

End Dispatcher.

(** * Specification

    ** Predicates of the specification *)

(** No comma occurs in the string. *)
Fixpoint comma_free (s : string) : bool :=
  match s with
  | EmptyString => true
  | String c s' => negb (Ascii.eqb c ",") && comma_free s'
  end.

(** An entry the decoder keeps: [unlockAt] is non-zero and after [now]. *)
Definition unexpired (now : Z) (e : string * Z) : bool :=
  negb (snd e =? 0) && (now <? snd e).

(** The names of a [TimersInfo] as the specification of the codec takes
    them: pairwise distinct (they are property names) and free of commas. *)
Definition names_ok (t : TimersInfo) : Prop :=
  NoDup (keys t) /\ Forall (fun k => comma_free k = true) (keys t).

(** What reading one entry does to the timers decoded so far. *)
Definition store_entry (now : Z) (e : string * Z) (T : TimersInfo) : TimersInfo :=
  if unexpired now e then obj_set (fst e) (snd e) T else T.

(** Eligibility as the specification words it: never dispatched, or
    dispatched at least [TIMEOUT] ago; and no cooldown loaded for the
    queue of the request. *)
Definition eligible (now : Z) (cooldowns : TimersInfo) (r : PendingRequest)
  : bool :=
  match startedAt r with
  | None => true
  | Some s => TIMEOUT <=? now - s
  end
  && match obj_get (queue r) cooldowns with
     | None => true
     | Some _ => false
     end.

(** What [(oldest, count)] holds once the requests [seen] were scanned. *)
Definition scan_inv (now : Z) (cooldowns : TimersInfo)
    (seen : list PendingRequest) (acc : option PendingRequest * Z) : Prop :=
  snd acc = Z.of_nat (List.length (filter (eligible now cooldowns) seen)) /\
  match fst acc with
  | None => forall r, In r seen -> eligible now cooldowns r = false
  | Some o =>
      In o seen /\ eligible now cooldowns o = true /\
      forall r, In r seen -> eligible now cooldowns r = true ->
                (createdAt o <= createdAt r)%Q
  end.


(** The freshness policy of [POST]: a regular file, and either no
    [expire] was given (or it is zero) or the file's date plus [expire]
    is still ahead of [now]. *)
Definition fresh (now : Z) (file : FsEntry) (expire : option Z) : Prop :=
  isFile file = true /\
  (truthy_num expire = false \/
   exists d e, cachedDate file = Some d /\ expire = Some e /\ now < d + e).

(** The handler a call of [buildResponse] adds for the caller. *)
Definition caller_handler (st : State) (reply : option string)
  : PendingRequestHandler :=
  match (if truthy_str reply then reply else None) with
  | Some url => Reply url
  | None => Resolve (promises st)
  end.

(** The number of webhook requests among the events of [sendReply]. *)
Fixpoint fetches (events : list ReplyEvent) : nat :=
  match events with
  | [] => O
  | Fetch _ :: events' => S (fetches events')
  | SetTimeout _ :: events' => fetches events'
  end.

(** ** Sample data

    A digest stand-in, a queue of the seed set, a clock and a few states,
    on which the properties below are evaluated. *)

Definition sample_getKey (text : string) : string := text.

Definition goodreads : RequestQueue := mkQueue "goodreads.com" 30000.

Definition sample_key : string := "goodreads.com//lol?w=6".

(** All readings of the wall clock at 1700000100000 ms. *)
Definition sample_clock : Clock :=
  mkClock 12.5%Q 1700000100000 1700000100000 1700000100000 1700000100000
    1700000100000 1700000100000.

Definition sample_bytes : list Byte.byte := [Byte.x42; Byte.x4f; Byte.x44; Byte.x59].

(** A body cached 100 s before the sample clock. *)
Definition cached_file : FsEntry :=
  mkEntry true (Some 1700000000000) (Some 1700000000000) sample_bytes.

Definition st_cached : State :=
  mkState [("goodreads.com", goodreads)] [] [] [] [(sample_key, cached_file)] 0.

Definition post_body (expire : option Z) (reply : option string) : PostBody :=
  mkPostBody "goodreads.com" "/lol" "?w=6" "https://goodreads.com/lol?w=6"
    expire None reply.

(** [st_cached] after an enqueue that accepts a cached body for one
    second only: the body is too old for it and a request is pending. *)
Definition st_cached_pending : State :=
  snd (POST sample_getKey sample_clock st_cached goodreads
         (post_body (Some 1000) None)).

Definition sample_request (created : Q) (started : option Z) (k : string)
  : PendingRequest :=
  mkRequest k "https://goodreads.com/lol?w=6" None created started
    "goodreads.com" [Resolve 0; Reply "https://valid.domain.tld/webhook"] 0.

(** Three requests: one dispatched 2 s ago, two waiting. *)
Definition st_three : State :=
  mkState [("goodreads.com", goodreads)]
    [("goodreads.com/a", sample_request 3 (Some 1700000098000) "goodreads.com/a");
     ("goodreads.com/b", sample_request 7.5 None "goodreads.com/b");
     ("goodreads.com/c", sample_request 5 (Some 1700000000000) "goodreads.com/c")]
    [] [("aF7my75$", "goodreads.com,1700000000500")] [] 1.

(** The same table seen by a client still cooling down on the queue. *)
Definition st_cooling : State :=
  with_localStorage [("aF7my75$", "goodreads.com,1700000100500")] st_three.

Definition get_request (path : string) (headers : obj string) : Request :=
  mkHttpRequest "GET" path headers [] None.

Definition delivery (path : string) (x_status : string) : Request :=
  mkHttpRequest "POST" path
    [("x-client-id", "aF7my75$"); ("x-status", x_status)] sample_bytes None.

Definition sample_post : WebhookPost :=
  mkPost "https://valid.domain.tld/webhook" sample_bytes "goodreads.com/b"
    "https://goodreads.com/lol?w=6" (Some 200).

(** Only the request in flight is left: nothing to dispatch, and the
    client's stored cooldown is expired. *)
Definition st_idle : State :=
  with_REQUESTS
    [("goodreads.com/a",
      sample_request 3 (Some 1700000098000) "goodreads.com/a")] st_three.
(** ** Further predicates *)

(** A name the codec can carry: not empty and free of commas. *)
Definition name_ok (k : string) : Prop := k <> "" /\ comma_free k = true.

(** What the sweep leaves under a client id that held [before]. *)
Definition swept (now : Z) (before : option string) : option string :=
  match before with
  | None => None
  | Some b =>
      let after := encodeTimers (decodeTimers now (Some b)) in
      if String.eqb after "" then None else Some after
  end.

(** The loop keeps the names stored so far distinct, not empty and free
    of commas, and its two buffers free of commas. *)
Definition decode_inv (d : DecodeState) : Prop :=
  NoDup (keys (timers d)) /\ Forall name_ok (keys (timers d)) /\
  comma_free (queueName d) = true /\ comma_free (currentStr d) = true.

(** ** Invariants of the tables *)

(** Promise [p] was allocated before the counter reached [n]. *)
Definition handler_bound (n : nat) (h : PendingRequestHandler) : Prop :=
  match h with
  | Resolve p => (p < n)%nat
  | Reply _ => True
  end.

(** An entry of [REQUESTS]: stored under its own key, with at least one
    waiter, no waiter twice, every stream promise allocated, and a queue
    registered under the request's queue name and bearing that name. *)
Definition request_ok (st : State) (kr : string * PendingRequest) : Prop :=
  key (snd kr) = fst kr /\
  handlers (snd kr) <> [] /\
  NoDup (handlers (snd kr)) /\
  Forall (handler_bound (promises st)) (handlers (snd kr)) /\
  exists q, obj_get (queue (snd kr)) (QUEUES st) = Some q /\
            name q = queue (snd kr).

(** Whatever a host name resolves to, the canonical name of that queue
    resolves to a queue of the same name. *)
Definition queues_ok (qs : obj RequestQueue) : Prop :=
  forall k q, obj_get k qs = Some q ->
  exists q', obj_get (name q) qs = Some q' /\ name q' = name q.

Definition table_ok (st : State) : Prop :=
  NoDup (keys (REQUESTS st)) /\
  Forall (request_ok st) (REQUESTS st) /\
  queues_ok (QUEUES st).

(** ** Start-up and runs *)

(** The seed set registered when the module is loaded. *)
Definition SEEDS : list (string * (Z * list string)) :=
  [("goodreads.com", (30000, ["www.goodreads.com"]));
   ("beeceptor.com", (1000, []));
   ("annas-archive.org", (60000, ["annas-archive.se"; "annas-archive.li"]));
   ("theaudiobookbay.se",
    (40000, ["185.247.224.117"; "audiobookbay.is"; "audiobookbay.lu"]))].

(** The loop over the seed set; it stops at the first [registerQueue]
    that throws. *)
Fixpoint register_all (now : Z) (seeds : list (string * (Z * list string)))
    (st : State) : outcome State :=
  match seeds with
  | [] => Returned st
  | (nm, (dl, aliases)) :: seeds' =>
      match registerQueue now nm dl aliases st with
      | Returned (_, st') => register_all now seeds' st'
      | Thrown m => Thrown m
      end
  end.

(** The state once the module is loaded, from the two persisted stores:
    empty tables, the first sweep, the seed queues. *)
Definition start (now : Z) (stored : obj string) (fs : obj FsEntry)
  : outcome State :=
  register_all now SEEDS
    (cleanupLocalStorageTimers now (mkState [] [] [] stored fs 0)).

(** What happens to the dispatcher after start-up: an HTTP request or a
    run of the hourly sweep. *)
Inductive Event : Type :=
| Http (clk : Clock) (request : Request)
| Sweep (now : Z).

Definition step (getKey : string -> string) (dispatcheStartAt : Z)
    (st : State) (e : Event) : State :=
  match e with
  | Http clk request =>
      snd (fst (httpHandler getKey dispatcheStartAt clk st request))
  | Sweep now => cleanupLocalStorageTimers now st
  end.

Definition run (getKey : string -> string) (dispatcheStartAt : Z)
    (events : list Event) (st : State) : State :=
  fold_left (step getKey dispatcheStartAt) events st.

(** The request [r] once it is handed out at [now_start]. *)
Definition dispatched (now_start : Z) (r : PendingRequest) : PendingRequest :=
  mkRequest (key r) (href r) (headers r) (createdAt r) (Some now_start)
    (queue r) (handlers r)
    (if truthy_num (startedAt r) then attempts r + 1 else attempts r).

(** The client [c] after one more dispatch, one more delivery. *)
Definition client_started (c : Client) : Client :=
  mkClient (client_id c) (activeAt c) (started c + 1) (finished c).

(** The record of client [id] once [getClient] saw it at [now]. *)
Definition seen (now : Z) (st : State) (id : string) : Client :=
  match obj_get id (CLIENTS st) with
  | Some c => mkClient (client_id c) now (started c) (finished c)
  | None => mkClient id now 0 0
  end.

(** ** The fetcher's User-Agent (service.ts) *)

(** A JS number that is not an integer epoch: a rational, or [NaN]. *)
Definition Qtrunc (x : Q) : Z :=
  if Qle_bool 0 x then Qfloor x else Qceiling x.

(** [x % n] for a finite [x] and an array length [n]: the remainder
    of the truncated division, [NaN] when [n] is zero. *)
Definition js_rem (x : Q) (n : Z) : option Q :=
  if n =? 0 then None
  else Some (x - inject_Z n * inject_Z (Qtrunc (x / inject_Z n)))%Q.

(** [arr[v]] for a number [v]: an element when [v] is a non-negative
    integer below the length, [undefined] otherwise. *)
Definition array_at {A} (arr : list A) (v : option Q) : option A :=
  match v with
  | None => None
  | Some q =>
      if Qeq_bool q (inject_Z (Qfloor q)) && (0 <=? Qfloor q)
      then nth_error arr (Z.to_nat (Qfloor q))
      else None
  end.

(** [pick(arr)] with [random] the value of [Math.random()]. *)
Definition pick {A} (arr : list A) (random : Q) : option A :=
  array_at arr (js_rem random (Z.of_nat (List.length arr))).

Definition platforms : list string :=
  ["Macintosh; Intel Mac OS X 14_6_1";
   "Windows NT 10.0; Win64; x64";
   "X11; Linux x86_64"].

Definition browsers : list string :=
  [") AppleWebKit/537.36 (KHTML, like Gecko) Chrome/128.0.0.0 Safari/537.36";
   ") AppleWebKit/537.36 (KHTML, like Gecko) Chrome/128.0.0.0 Safari/537.36 Edg/128.0.0.0";
   "; rv:129.0) Gecko/20100101 Firefox/129.0";
   ") AppleWebKit/605.1.15 (KHTML, like Gecko) Version/17.5 Safari/605.1.15";
   ") AppleWebKit/537.36 (KHTML, like Gecko) Chrome/128.0.0.0 Safari/537.36 Vivaldi/6.8.3381.55"].

(** A value interpolated into a template literal. *)
Definition interpolate (v : option string) : string :=
  match v with
  | Some s => s
  | None => "undefined"
  end.

(** The [user-agent] of an upstream request, from the two values
    [Math.random()] returns. *)
Definition user_agent (random1 random2 : Q) : string :=
  "Mozilla/5.0 (" ++ interpolate (pick platforms random1)
                  ++ interpolate (pick browsers random2).

(** ** Further sample data *)

Definition sample_stored : obj string :=
  [("aF7my75$", "goodreads.com,1700000000500");
   ("localhost", "beeceptor.com,1700000101000")].

(** The state after a start at the sample clock on an empty directory. *)
Definition st_started : State :=
  match start 1700000100000 sample_stored [] with
  | Returned st => st
  | Thrown _ => mkState [] [] [] [] [] 0
  end.

Definition sample_enqueue : Request :=
  mkHttpRequest "POST" "/" [] [] (Some (post_body None None)).

(** An enqueue, a dispatch, the delivery and a sweep. *)
Definition sample_events : list Event :=
  [Http sample_clock sample_enqueue;
   Http sample_clock (get_request "/" [("x-client-id", "aF7my75$")]);
   Http sample_clock (delivery "/goodreads.com//lol?w=6" "200");
   Sweep 1700000200000].

Definition st_empty : State :=
  mkState [("goodreads.com", goodreads)] [] [] [] [] 0.

Definition beeceptor : RequestQueue := mkQueue "beeceptor.com" 1000.

Definition plain_request (k q : string) (created : Q) : PendingRequest :=
  mkRequest k "https://example.test/" None created None q [Resolve 0] 0.

(** Requests of two queues, none started, no cooldown stored. *)
Definition st_two : State :=
  mkState [("goodreads.com", goodreads); ("beeceptor.com", beeceptor)]
    [("goodreads.com/a", plain_request "goodreads.com/a" "goodreads.com" 3);
     ("beeceptor.com/x", plain_request "beeceptor.com/x" "beeceptor.com" 9);
     ("goodreads.com/b", plain_request "goodreads.com/b" "goodreads.com" 5)]
    [] [] [] 1.

Definition directory : FsEntry :=
  mkEntry false (Some 1700000000000) (Some 1700000000000) [].

(** A request is pending for a key whose cache path is a directory. *)
Definition st_dir_pending : State :=
  mkState [("goodreads.com", goodreads)]
    [(sample_key, plain_request sample_key "goodreads.com" 3)]
    [] [] [(sample_key, directory)] 1.


(** * Properties *)

(** ** Strings and objects *)

Lemma append_assoc (a b c : string) : (a ++ b) ++ c = a ++ (b ++ c).
Proof. induction a as [|x a IH]; simpl; [reflexivity | now rewrite IH]. Qed.

Lemma append_nil_r (a : string) : a ++ "" = a.
Proof. induction a as [|x a IH]; simpl; [reflexivity | now rewrite IH]. Qed.

Lemma obj_set_fresh {V} (k : string) (v : V) (o : obj V) :
  ~ In k (keys o) -> obj_set k v o = (o ++ [(k, v)])%list.
Proof.
  induction o as [|[k' v'] o IH]; simpl; intros H; [reflexivity|].
  destruct (String.eqb_spec k k') as [->|Hne].
  - exfalso. apply H. now left.
  - rewrite IH; [reflexivity|]. intros Hin. apply H. now right.
Qed.

(** ** Numbers in decimal *)

Lemma uint_digits_comma_free (d : Decimal.uint) :
  comma_free (NilEmpty.string_of_uint d) = true.
Proof. induction d; simpl; auto. Qed.

Lemma String_of_number_comma_free (n : Z) :
  comma_free (String_of_number n) = true.
Proof.
  unfold String_of_number.
  destruct (Z.to_int n) as [d|d]; simpl;
    destruct d; simpl; auto using uint_digits_comma_free.
Qed.

Lemma to_int_not_nil (n : Z) :
  Z.to_int n <> Decimal.Pos Decimal.Nil /\ Z.to_int n <> Decimal.Neg Decimal.Nil.
Proof.
  destruct n as [|p|p]; simpl; split; try discriminate;
    intros [= H]; now apply (DecimalPos.Unsigned.to_uint_nonnil p).
Qed.

Lemma Number_String_of_number (n : Z) :
  Number (String_of_number n) = Some n.
Proof.
  unfold Number, String_of_number.
  destruct (to_int_not_nil n) as [Hp Hn].
  pose proof (NilZero.isi (Z.to_int n) Hp Hn) as Hisi.
  destruct (NilZero.string_of_int (Z.to_int n)) eqn:E.
  - discriminate Hisi.
  - rewrite Hisi. simpl. now rewrite DecimalZ.of_to.
Qed.

(** ** The decoding loop over one token *)

Lemma decode_loop_token (now : Z) (tok rest : string) (d : DecodeState) :
  comma_free tok = true ->
  decode_loop now (tok ++ rest) d =
  decode_loop now rest
    (mkDecode (queueName d) (currentStr d ++ tok) (timers d)).
Proof.
  revert d. induction tok as [|c tok IH]; intros d Hc; simpl.
  - rewrite append_nil_r. now destruct d.
  - simpl in Hc. apply andb_prop in Hc as [Hc1 Hc2].
    apply negb_true_iff in Hc1. rewrite Hc1.
    rewrite IH by assumption. unfold decode_char. simpl.
    now rewrite append_assoc.
Qed.

(** After a name and its value are read the loop is back in its initial
    mode, with the entry stored when it is still locked. *)
Lemma decode_entry (now : Z) (k : string) (v : Z) (T : TimersInfo) :
  k <> "" ->
  decode_token now (mkDecode k (String_of_number v) T) =
  mkDecode "" ""
    (if unexpired now (k, v) then obj_set k v T else T).
Proof.
  intros Hk. unfold decode_token. simpl.
  apply String.eqb_neq in Hk. rewrite Hk.
  rewrite Number_String_of_number. reflexivity.
Qed.

Lemma decode_name (now : Z) (k rest : string) (T : TimersInfo) :
  comma_free k = true ->
  decode_loop now (k ++ "," ++ rest) (mkDecode "" "" T) =
  decode_loop now rest (mkDecode k "" T).
Proof.
  intros Hk. rewrite decode_loop_token by assumption. reflexivity.
Qed.

Lemma decode_last_entry (now : Z) (e : string * Z) (T : TimersInfo) :
  fst e <> "" -> comma_free (fst e) = true ->
  decode_loop now (entry_toString e) (mkDecode "" "" T) =
  mkDecode "" "" (store_entry now e T).
Proof.
  destruct e as [k v]. simpl. intros Hne Hk.
  unfold entry_toString. simpl fst; simpl snd.
  rewrite decode_name by assumption.
  rewrite <- (append_nil_r (String_of_number v)).
  rewrite decode_loop_token by apply String_of_number_comma_free.
  simpl. now rewrite decode_entry.
Qed.

Lemma decode_inner_entry (now : Z) (e : string * Z) (rest : string)
    (T : TimersInfo) :
  fst e <> "" -> comma_free (fst e) = true ->
  decode_loop now (entry_toString e ++ "," ++ rest) (mkDecode "" "" T) =
  decode_loop now rest (mkDecode "" "" (store_entry now e T)).
Proof.
  destruct e as [k v]. simpl. intros Hne Hk.
  unfold entry_toString. simpl fst; simpl snd.
  rewrite !append_assoc.
  rewrite decode_name by assumption.
  rewrite decode_loop_token by apply String_of_number_comma_free.
  simpl. now rewrite decode_entry.
Qed.

Lemma decode_loop_encode (now : Z) (l : TimersInfo) :
  forall T : TimersInfo,
  l <> [] ->
  NoDup (keys l) ->
  Forall (fun k => k <> "" /\ comma_free k = true) (keys l) ->
  (forall k, In k (keys l) -> ~ In k (keys T)) ->
  decode_loop now (encodeTimers l) (mkDecode "" "" T) =
  mkDecode "" "" (T ++ filter (unexpired now) l)%list.
Proof.
  induction l as [|e l IH]; intros T Hne Hnd Hall Hfresh; [congruence|].
  inversion Hnd as [|? ? Hnotin Hnd']; subst.
  inversion Hall as [|? ? [Hk1 Hk2] Hall']; subst.
  assert (Hstore : store_entry now e T =
                   (T ++ (if unexpired now e then [e] else []))%list).
  { unfold store_entry. destruct (unexpired now e).
    - rewrite obj_set_fresh by (apply Hfresh; now left). now destruct e.
    - now rewrite app_nil_r. }
  destruct l as [|e' l].
  - unfold encodeTimers. simpl map. simpl join.
    rewrite decode_last_entry by assumption. rewrite Hstore.
    simpl. now destruct (unexpired now e).
  - assert (Henc : encodeTimers (e :: e' :: l) =
                   entry_toString e ++ "," ++ encodeTimers (e' :: l))
      by reflexivity.
    rewrite Henc, decode_inner_entry by assumption.
    rewrite IH; try assumption; try discriminate.
    + rewrite Hstore. simpl filter at 2.
      destruct (unexpired now e); simpl; now rewrite <- app_assoc.
    + intros k Hin Hin'. rewrite Hstore in Hin'.
      unfold keys in Hin'. rewrite map_app in Hin'.
      apply in_app_or in Hin' as [Hin'|Hin'].
      * apply (Hfresh k); [now right | assumption].
      * destruct (unexpired now e); simpl in Hin'; [|contradiction].
        destruct Hin' as [<-|[]]. now apply Hnotin.
Qed.

(** C3: [decodeTimers (encodeTimers t)] read at [now] is [t] without the
    entries whose [unlockAt] is zero or not after [now], the others
    unchanged and in order, for every [t] whose queue names are distinct,
    free of commas and not empty; and the empty map encodes to the empty
    string. *)
Theorem decodeTimers_encodeTimers (now : Z) (t : TimersInfo) :
  names_ok t ->
  Forall (fun k => k <> "") (keys t) ->
  decodeTimers now (Some (encodeTimers t)) = filter (unexpired now) t
  /\ encodeTimers [] = "".
Proof.
  intros [Hnd Hcf] Hne. split; [|reflexivity].
  destruct t as [|e t]; [reflexivity|].
  assert (Hall : Forall (fun k => k <> "" /\ comma_free k = true)
                   (keys (e :: t))).
  { rewrite Forall_forall in *. intros k Hin. split; auto. }
  pose proof (decode_loop_encode now (e :: t) [] ltac:(discriminate) Hnd Hall
                ltac:(intros k _ [])) as Hloop.
  unfold decodeTimers.
  destruct (encodeTimers (e :: t)) eqn:Henc.
  - (* the encoding of a non-empty map whose names are not empty *)
    inversion Hne as [|? ? Hk _]; subst. exfalso. apply Hk.
    destruct e as [k v]. destruct k as [|c k]; [reflexivity|].
    exfalso. unfold encodeTimers, entry_toString in Henc.
    destruct t; cbn [map join fst append] in Henc; discriminate Henc.
  - simpl truthy_str. cbv iota. rewrite Hloop. reflexivity.
Qed.

(** ** Scheduler *)

(** Every value the decoder stores is non-zero and after [now]. *)
Lemma obj_set_Forall {V} (P : string * V -> Prop) k v (o : obj V) :
  P (k, v) -> (forall k' v', P (k', v') -> P (k', v)) ->
  Forall P o -> Forall P (obj_set k v o).
Proof.
  intros Hkv Hrepl. induction o as [|[k' v'] o IH]; simpl; intros Hall.
  - now constructor.
  - inversion Hall; subst.
    destruct (String.eqb_spec k k') as [->|Hne]; constructor; auto.
Qed.

Lemma decode_token_unexpired now d :
  Forall (fun e => unexpired now e = true) (timers d) ->
  Forall (fun e => unexpired now e = true) (timers (decode_token now d)).
Proof.
  intros H. unfold decode_token.
  destruct (String.eqb (queueName d) ""); simpl; [assumption|].
  destruct (Number (currentStr d)) as [v|]; [|assumption].
  destruct (truthy_num (Some v) && (now <? v)) eqn:E; [|assumption].
  apply obj_set_Forall; auto.
Qed.

Lemma decode_loop_unexpired now s :
  forall d,
  Forall (fun e => unexpired now e = true) (timers d) ->
  Forall (fun e => unexpired now e = true) (timers (decode_loop now s d)).
Proof.
  induction s as [|c s IH]; intros d H; simpl.
  - now apply decode_token_unexpired.
  - destruct (Ascii.eqb c ","); apply IH;
      [now apply decode_token_unexpired | assumption].
Qed.

Lemma decodeTimers_unexpired now enc :
  Forall (fun e => unexpired now e = true) (decodeTimers now enc).
Proof.
  unfold decodeTimers. destruct (truthy_str enc); [|constructor].
  destruct enc as [s|]; [|constructor].
  apply decode_loop_unexpired. constructor.
Qed.

Lemma obj_get_Forall {V} (P : string * V -> Prop) k v (o : obj V) :
  Forall P o -> obj_get k o = Some v -> P (k, v).
Proof.
  induction o as [|[k' v'] o IH]; simpl; intros Hall Hget; [discriminate|].
  inversion Hall; subst.
  destruct (String.eqb_spec k k') as [->|Hne]; [now injection Hget as <- | auto].
Qed.

(** On decoded timers the test [timers[req.queue]] is the presence of
    the queue name. *)
Lemma cooling_decoded now enc req :
  cooling (decodeTimers now enc) req =
  match obj_get (queue req) (decodeTimers now enc) with
  | Some _ => true
  | None => false
  end.
Proof.
  unfold cooling.
  destruct (obj_get (queue req) (decodeTimers now enc)) as [v|] eqn:E;
    [|reflexivity].
  pose proof (obj_get_Forall _ _ _ _ (decodeTimers_unexpired now enc) E) as H.
  unfold unexpired in H. simpl in *. now apply andb_prop in H as [-> _].
Qed.

Lemma eligible_decoded now_timers now enc r :
  eligible now (decodeTimers now_timers enc) r =
  negb (in_flight now r) && negb (cooling (decodeTimers now_timers enc) r).
Proof.
  unfold eligible, in_flight. rewrite cooling_decoded.
  f_equal.
  - destruct (startedAt r) as [s|]; [|reflexivity]. apply Z.leb_antisym.
  - now destruct (obj_get (queue r) (decodeTimers now_timers enc)).
Qed.

Lemma Qltb_true x y : Qltb x y = true -> (x <= y)%Q.
Proof.
  unfold Qltb. intros H. apply negb_true_iff in H.
  destruct (Qlt_le_dec x y) as [Hlt|Hle]; [now apply Qlt_le_weak|].
  apply Qle_bool_iff in Hle. congruence.
Qed.

Lemma Qltb_false x y : Qltb x y = false -> (y <= x)%Q.
Proof.
  unfold Qltb. intros H. apply negb_false_iff in H. now apply Qle_bool_iff.
Qed.

Section Scan.

Variables (now : Z) (T : TimersInfo).
Hypothesis eligible_code :
  forall r, eligible now T r = negb (in_flight now r) && negb (cooling T r).

Lemma scan_step_inv seen acc r :
  scan_inv now T seen acc ->
  scan_inv now T (seen ++ [r]) (scan_step now T acc r).
Proof.
  destruct acc as [oldest n]. unfold scan_inv. simpl. intros [Hn Hold].
  rewrite filter_app, List.length_app. simpl filter.
  pose proof (eligible_code r) as Hr. unfold scan_step.
  destruct (in_flight now r); [|destruct (cooling T r)]; simpl in Hr;
    rewrite Hr; simpl.
  1,2: split; [lia|];
    destruct oldest as [o|];
    [ destruct Hold as (Hin & Hel & Hmin); repeat split; auto;
      [ apply in_or_app; now left
      | intros r' Hin' Hel'; apply in_app_or in Hin' as [Hin'|[<-|[]]];
        [auto | congruence] ]
    | intros r' Hin'; apply in_app_or in Hin' as [Hin'|[<-|[]]]; auto ].
  destruct oldest as [o|]; simpl.
  - destruct Hold as (Hin & Hel & Hmin).
    destruct (Qltb (createdAt o) (createdAt r)) eqn:Hlt; simpl.
    + split; [lia|]. repeat split; auto.
      * apply in_or_app; now left.
      * intros r' Hin' Hel'. apply in_app_or in Hin' as [Hin'|[<-|[]]];
          [auto | now apply Qltb_true].
    + split; [lia|]. repeat split; auto.
      * apply in_or_app; right; now left.
      * intros r' Hin' Hel'. apply in_app_or in Hin' as [Hin'|[<-|[]]].
        -- apply Qle_trans with (createdAt o); [now apply Qltb_false | auto].
        -- apply Qle_refl.
  - split; [lia|]. repeat split; auto.
    + apply in_or_app; right; now left.
    + intros r' Hin' Hel'. apply in_app_or in Hin' as [Hin'|[<-|[]]].
      * rewrite Hold in Hel' by assumption. discriminate.
      * apply Qle_refl.
Qed.

Lemma scan_fold_inv reqs :
  forall seen acc,
  scan_inv now T seen acc ->
  scan_inv now T (seen ++ reqs) (fold_left (scan_step now T) reqs acc).
Proof.
  induction reqs as [|r reqs IH]; intros seen acc H; simpl.
  - now rewrite app_nil_r.
  - replace (seen ++ r :: reqs)%list with ((seen ++ [r]) ++ reqs)%list
      by now rewrite <- app_assoc.
    apply IH. now apply scan_step_inv.
Qed.

Lemma scan_spec reqs : scan_inv now T reqs (scan now T reqs).
Proof.
  apply (scan_fold_inv reqs [] (None, 0)).
  split; [reflexivity|]. intros r [].
Qed.

End Scan.


(** ** Tables *)

Lemma obj_get_delete {V} (k : string) (o : obj V) :
  obj_get k (obj_delete k o) = None.
Proof.
  induction o as [|[k' v] o IH]; simpl; [reflexivity|].
  destruct (String.eqb k k') eqn:E; [assumption|].
  simpl. now rewrite E.
Qed.

Lemma obj_get_set {V} (k : string) (v : V) (o : obj V) :
  obj_get k (obj_set k v o) = Some v.
Proof.
  induction o as [|[k' v'] o IH]; simpl.
  - now rewrite String.eqb_refl.
  - destruct (String.eqb k k') eqn:E; simpl; now rewrite E.
Qed.

(** ** Delivery *)

Lemma getClient_frame now st request c st' :
  getClient now st request = (c, st') ->
  REQUESTS st' = REQUESTS st /\ files st' = files st /\
  localStorage st' = localStorage st /\ QUEUES st' = QUEUES st.
Proof.
  unfold getClient.
  destruct (if truthy_str _ then _ else None); intros [= <- <-]; auto.
Qed.



(** C6: a delivery for a key that has no pending request is answered
    with the 404 response and changes nothing: the state is the one before
    (no file written, no client touched, no table entry changed) and no
    handler is notified.  So is the [POST /<key>] that [httpHandler]
    routes to it. *)
Theorem delivery_without_request_is_404
    (clk : Clock) (st : State) (request : Request) (key : string) :
  obj_get key (REQUESTS st) = None ->
  handleRequestResponse clk st request key = (Returned NOT_FOUND, st, []) /\
  status NOT_FOUND = 404 /\
  forall (getKey : string -> string) (dispatcheStartAt : Z),
    method request = "POST" ->
    r_pathname request = "/" ++ key -> key <> "" ->
    httpHandler getKey dispatcheStartAt clk st request
      = (Returned NOT_FOUND, st, []).
Proof.
  intros H.
  assert (Hres : handleRequestResponse clk st request key
                 = (Returned NOT_FOUND, st, []))
    by (unfold handleRequestResponse; now rewrite H).
  repeat split; [exact Hres|].
  intros getKey start HP Hpath Hkey. unfold httpHandler.
  rewrite HP, Hpath. rewrite String.eqb_refl.
  destruct key as [|c key]; [congruence|].
  assert (E : (1 <? Z.of_nat (String.length ("/" ++ String c key))) = true)
    by (apply Z.ltb_lt; simpl String.length; lia).
  rewrite E. exact Hres.
Qed.

(** C10: whatever [handleRequestNextInQueue] answers other than a
    dispatched request (the 204 of an unsuccessful scan in particular)
    leaves the cooldown store as it was. *)
Theorem no_dispatch_keeps_cooldowns
    (clk : Clock) (st : State) (request : Request) (res : Response)
    (st' : State) :
  handleRequestNextInQueue clk st request = (Returned res, st') ->
  status res = 204 ->
  localStorage st' = localStorage st.
Proof.
  unfold handleRequestNextInQueue.
  destruct (getClient (now_client clk) st request) as [client st1] eqn:Hc.
  apply getClient_frame in Hc as (_ & _ & HL & _).
  destruct client as [c|].
  - unfold getNextInQueue.
    destruct (scan _ _ _) as [[o|] n].
    + destruct (obj_get (queue o) (QUEUES st1)); [|discriminate].
      simpl. intros [= <- <-]. discriminate.
    + simpl. intros [= <- <-] _. assumption.
  - intros [= <- <-]. discriminate.
Qed.

(** ** Webhook delivery *)

Lemma fetches_app (a b : list ReplyEvent) :
  fetches (a ++ b) = (fetches a + fetches b)%nat.
Proof.
  induction a as [|[p|ms] a IH]; simpl; [reflexivity | now rewrite IH | exact IH].
Qed.

(** The loop retries on 500 and on nothing else, without a cap: [n]
    answers 500 followed by another status make [n + 1] requests, after
    which the call returns; and [n] answers 500 alone leave request
    [n + 1] awaited. *)
Lemma sendReply_retries_on_500 (post : WebhookPost) (n : nat) :
  forall (attempts s : Z) (rest : list Z),
  s <> 500 ->
  fetches (fst (sendReply post attempts (repeat 500 n ++ s :: rest))) = S n /\
  snd (sendReply post attempts (repeat 500 n ++ s :: rest)) = true.
Proof.
  induction n as [|n IH]; intros attempts s rest Hs; simpl.
  - apply Z.eqb_neq in Hs. rewrite Hs. simpl. auto.
  - specialize (IH (attempts + 1) s rest Hs).
    destruct (sendReply post (attempts + 1) (repeat 500 n ++ s :: rest))
      as [events returned].
    simpl in *. destruct IH as [IH1 IH2]. split; [|assumption].
    rewrite fetches_app, IH1.
    now destruct (negb (attempts =? 0)).
Qed.

Lemma sendReply_no_cap (post : WebhookPost) (n : nat) :
  forall attempts : Z,
  fetches (fst (sendReply post attempts (repeat 500 n))) = S n /\
  snd (sendReply post attempts (repeat 500 n)) = false.
Proof.
  induction n as [|n IH]; intros attempts; simpl; [auto|].
  specialize (IH (attempts + 1)).
  destruct (sendReply post (attempts + 1) (repeat 500 n)) as [events returned].
  simpl in *. destruct IH as [IH1 IH2]. split; [|assumption].
  rewrite fetches_app, IH1.
  now destruct (negb (attempts =? 0)).
Qed.

(** C7: when the recipient answers 500 to the first request and a
    terminal status to the second, [sendReply] makes exactly two requests
    and returns, and no timeout is set between the two: the first wait,
    of 750 ms, comes before a third request. *)
Theorem sendReply_first_retry_immediate
    (post : WebhookPost) (s : Z) (rest : list Z) :
  s <> 500 ->
  sendReply post 0 (500 :: s :: rest) = ([Fetch post; Fetch post], true) /\
  sendReply post 0 (500 :: 500 :: s :: rest)
    = ([Fetch post; Fetch post; SetTimeout 750; Fetch post], true).
Proof.
  intros Hs. apply Z.eqb_neq in Hs. simpl. rewrite Hs. simpl. auto.
Qed.

(** ** Enqueue, client identification and routing *)

Section HandlerProperties.

Variable getKey : string -> string.
Variable dispatcheStartAt : Z.

Lemma buildResponse_attaches st req reply :
  obj_get (key req) (REQUESTS st) = Some req ->
  let '(res, st') := buildResponse st req reply in
  res_headers res = [("x-request-key", key req)] /\
  (if truthy_str reply then status res = 202 /\ body res = Null
   else status res = 200 /\ body res = PromiseStream (promises st)) /\
  obj_get (key req) (REQUESTS st') =
    Some (set_handlers (set_add (caller_handler st reply) (handlers req)) req).
Proof.
  intros Hget. unfold buildResponse, caller_handler.
  destruct reply as [[|c u]|]; simpl; unfold add_handler; rewrite Hget;
    rewrite obj_get_set; auto.
Qed.

Lemma read_cache_fresh now fs key expire file :
  obj_get key fs = Some file ->
  fresh now file expire ->
  read_cache now fs key expire = Hit (cached key file).
Proof.
  intros Hget [Hfile Hfresh]. unfold read_cache. rewrite Hget, Hfile. simpl.
  destruct expire as [e|]; [|reflexivity].
  destruct Hfresh as [Hz|(d & e' & Hd & [= <-] & Hlt)].
  - now rewrite Hz.
  - destruct (truthy_num (Some e)); simpl; [|reflexivity].
    rewrite Hd. apply Z.ltb_lt in Hlt. now rewrite Hlt.
Qed.

(** C1: [POST] looks the key up in the request table first.  A pending
    request stored under the key is joined, whatever the cache holds: the
    caller's handler is added to it and the answer carries the key header,
    a 202 when a reply address was given and a streaming 200 otherwise.
    Only when no request is pending is the cache read, and then an entry
    satisfying the freshness policy is streamed with [x-from-cache] and
    the state is unchanged: no handler is attached, no request created. *)
Theorem POST_joins_before_reading_cache
    (clk : Clock) (st : State) (queue : RequestQueue) (b : PostBody) :
  let k := name queue ++ "/" ++ getKey (pathname b ++ search b) in
  (forall req,
     obj_get k (REQUESTS st) = Some req -> key req = k ->
     let '(res, st') := POST getKey clk st queue b in
     res_headers res = [("x-request-key", k)] /\
     (if truthy_str (reply b) then status res = 202 /\ body res = Null
      else status res = 200 /\ body res = PromiseStream (promises st)) /\
     obj_get k (REQUESTS st') =
       Some (set_handlers
               (set_add (caller_handler st (reply b)) (handlers req)) req))
  /\
  (forall file,
     obj_get k (REQUESTS st) = None ->
     obj_get k (files st) = Some file ->
     fresh (now_fresh clk) file (expire b) ->
     POST getKey clk st queue b =
       (mkResponse 200 [("x-from-cache", k)] (FileStream (content file)), st)).
Proof.
  intros k. split.
  - intros req Hget Hkey. unfold POST. fold k. rewrite Hget.
    pose proof (buildResponse_attaches st req (reply b)) as H.
    rewrite Hkey in H. specialize (H Hget).
    destruct (buildResponse st req (reply b)) as [res st']. exact H.
  - intros file Hget Hfile Hfresh. unfold POST. fold k. rewrite Hget.
    now rewrite (read_cache_fresh _ _ _ _ _ Hfile Hfresh).
Qed.

(** C8: with no request pending for the key, a cached regular file dated
    [d] and a non-zero [expire] [e], [POST] serves the file while
    [now < d + e] and treats it as missing, enqueueing the request, as
    soon as [d + e <= now], the boundary [now = d + e] included. *)
Theorem POST_expired_from_boundary
    (clk : Clock) (st : State) (queue : RequestQueue) (b : PostBody)
    (file : FsEntry) (d e : Z) :
  let k := name queue ++ "/" ++ getKey (pathname b ++ search b) in
  obj_get k (REQUESTS st) = None ->
  obj_get k (files st) = Some file ->
  isFile file = true ->
  mtime file = Some d ->
  expire b = Some e ->
  e <> 0 ->
  (now_fresh clk < d + e ->
   POST getKey clk st queue b = (cached k file, st)) /\
  (d + e <= now_fresh clk ->
   read_cache (now_fresh clk) (files st) k (expire b) = Miss /\
   POST getKey clk st queue b = enqueue clk st queue k b).
Proof.
  intros k Hget Hfile Hreg Hm He Hnz.
  assert (Hread : read_cache (now_fresh clk) (files st) k (expire b) =
                  if now_fresh clk <? d + e then Hit (cached k file) else Miss).
  { unfold read_cache, cachedDate. rewrite Hfile, Hreg, He, Hm. simpl.
    apply Z.eqb_neq in Hnz. now rewrite Hnz. }
  unfold POST. fold k. rewrite Hget, Hread. split; intros H.
  - apply Z.ltb_lt in H. now rewrite H.
  - apply Z.ltb_ge in H. now rewrite H.
Qed.

(** C4: a request whose [x-client-id], [true-client-ip] and
    [cf-connecting-ip] headers are absent or empty gets no client,
    whatever its [x-forwarded-for] header holds: the fourth header
    [getClient] reads is [x-forwared-for].  Its [GET /] is refused with
    the 400 of a missing client id and the state is unchanged. *)
Theorem getClient_ignores_x_forwarded_for
    (clk : Clock) (st : State) (request : Request) :
  truthy_str (obj_get "x-client-id" (r_headers request)) = false ->
  truthy_str (obj_get "true-client-ip" (r_headers request)) = false ->
  truthy_str (obj_get "cf-connecting-ip" (r_headers request)) = false ->
  truthy_str (obj_get "x-forwared-for" (r_headers request)) = false ->
  getClient (now_client clk) st request = (None, st) /\
  handleRequestNextInQueue clk st request
    = (Returned (fail 400 "expect the x-client-id header to be set"), st).
Proof.
  intros H1 H2 H3 H4.
  assert (Hc : getClient (now_client clk) st request = (None, st)).
  { unfold getClient, or_else. rewrite H3, H2, H1, H4. reflexivity. }
  split; [exact Hc|].
  unfold handleRequestNextInQueue. now rewrite Hc.
Qed.

(** C9: the 404 response is the answer to every request whose method is
    neither POST nor GET.  Every POST and every GET is routed: a POST to
    a path longer than one character is a delivery for the rest of the
    path and any other POST an enqueue; a GET to [/status] or [/status/]
    is the status report and a GET to any other path is a dispatch. *)
Theorem httpHandler_routes (clk : Clock) (st : State) (request : Request) :
  (method request <> "POST" -> method request <> "GET" ->
   httpHandler getKey dispatcheStartAt clk st request =
     (Returned NOT_FOUND, st, [])) /\
  (method request = "GET" ->
   r_pathname request <> "/status" -> r_pathname request <> "/status/" ->
   httpHandler getKey dispatcheStartAt clk st request =
     (fst (handleRequestNextInQueue clk st request),
      snd (handleRequestNextInQueue clk st request), [])) /\
  (method request = "GET" ->
   r_pathname request = "/status" \/ r_pathname request = "/status/" ->
   httpHandler getKey dispatcheStartAt clk st request =
     (Returned (handleGetStatus dispatcheStartAt clk st), st, [])) /\
  (method request = "POST" ->
   (1 < String.length (r_pathname request))%nat ->
   httpHandler getKey dispatcheStartAt clk st request =
     handleRequestResponse clk st request (slice1 (r_pathname request))) /\
  (method request = "POST" ->
   (String.length (r_pathname request) <= 1)%nat ->
   httpHandler getKey dispatcheStartAt clk st request =
     (Returned (fst (handleRequestQueue getKey clk st request)),
      snd (handleRequestQueue getKey clk st request), [])).
Proof.
  unfold httpHandler. repeat split.
  - intros HP HG. apply String.eqb_neq in HP, HG. now rewrite HP, HG.
  - intros HG H1 H2. rewrite HG. simpl.
    apply String.eqb_neq in H1, H2. rewrite H1, H2. simpl.
    now destruct (handleRequestNextInQueue clk st request).
  - intros HG H. rewrite HG. simpl.
    destruct H as [-> | ->]; reflexivity.
  - intros HP H. rewrite HP. simpl.
    assert (E : (1 <? Z.of_nat (String.length (r_pathname request))) = true)
      by (apply Z.ltb_lt; lia).
    now rewrite E.
  - intros HP H. rewrite HP. simpl.
    assert (E : (1 <? Z.of_nat (String.length (r_pathname request))) = false)
      by (apply Z.ltb_ge; lia).
    rewrite E. now destruct (handleRequestQueue getKey clk st request).
Qed.

End HandlerProperties.

(** * Evaluations *)

(** The codec on three entries, one expired and one zero. *)
Lemma codec_round_trip_sample :
  names_ok [("goodreads.com", 1700000130000); ("beeceptor.com", 1700000099000);
            ("annas-archive.org", 0)] /\
  decodeTimers 1700000100000
    (Some (encodeTimers
             [("goodreads.com", 1700000130000);
              ("beeceptor.com", 1700000099000); ("annas-archive.org", 0)]))
  = [("goodreads.com", 1700000130000)].
Proof.
  assert (Hok : names_ok
                  [("goodreads.com", 1700000130000);
                   ("beeceptor.com", 1700000099000); ("annas-archive.org", 0)]).
  { split.
    - repeat constructor; simpl; intuition discriminate.
    - repeat constructor. }
  split; [exact Hok|].
  refine (proj1 (decodeTimers_encodeTimers 1700000100000 _ Hok _)).
  repeat constructor; discriminate.
Defined.

(** An entry under the empty queue name does not survive the codec. *)
Lemma codec_drops_empty_name :
  names_ok [("", 1700000130000)] /\
  unexpired 1700000100000 ("", 1700000130000) = true /\
  encodeTimers [("", 1700000130000)] = ",1700000130000" /\
  decodeTimers 1700000100000 (Some (encodeTimers [("", 1700000130000)])) = [] /\
  decodeTimers 1700000100000 (Some (encodeTimers [("", 1700000130000)]))
    <> filter (unexpired 1700000100000) [("", 1700000130000)].
Proof.
  repeat split; try reflexivity.
  - repeat constructor; simpl; intuition.
  - repeat constructor.
  - vm_compute. discriminate.
Qed.



(** A delivery for a key that is not pending, on [st_three]. *)
Lemma unknown_key_sample :
  obj_get "goodreads.com/zzz" (REQUESTS st_three) = None /\
  httpHandler sample_getKey 0 sample_clock st_three
    (delivery "/goodreads.com/zzz" "200")
  = (Returned NOT_FOUND, st_three, []).
Proof.
  split; [reflexivity|].
  refine (proj2 (proj2 (delivery_without_request_is_404 sample_clock st_three
                          (delivery "/goodreads.com/zzz" "200")
                          "goodreads.com/zzz" eq_refl))
            sample_getKey 0 eq_refl eq_refl _).
  discriminate.
Defined.

(** A [GET /] on [st_idle] is answered 204 and the expired cooldown of the
    client stays in the store as it was written. *)
Lemma idle_scan_sample :
  fst (handleRequestNextInQueue sample_clock st_idle
         (get_request "/" [("x-client-id", "aF7my75$")]))
    = Returned EMPTY /\
  decodeTimers 1700000100000 (Some "goodreads.com,1700000000500") = [] /\
  localStorage
    (snd (handleRequestNextInQueue sample_clock st_idle
            (get_request "/" [("x-client-id", "aF7my75$")])))
  = [("aF7my75$", "goodreads.com,1700000000500")].
Proof.
  split; [reflexivity|]. split; [reflexivity|].
  exact (no_dispatch_keeps_cooldowns sample_clock st_idle
           (get_request "/" [("x-client-id", "aF7my75$")])
           EMPTY _ eq_refl eq_refl).
Defined.

(** With a request pending and a body in the cache that the caller's
    policy accepts (no [expire]), [POST] does not serve the cache: the
    answer carries [x-request-key], not [x-from-cache], and the caller's
    handler is added to the pending request. *)
Lemma fresh_cache_joins_pending :
  (exists file,
     obj_get sample_key (files st_cached_pending) = Some file /\
     fresh (now_fresh sample_clock) file (expire (post_body None None))) /\
  obj_get "x-from-cache"
    (res_headers
       (fst (POST sample_getKey sample_clock st_cached_pending goodreads
               (post_body None None)))) = None /\
  fst (POST sample_getKey sample_clock st_cached_pending goodreads
         (post_body None None))
    = mkResponse 200 [("x-request-key", sample_key)] (PromiseStream 1) /\
  option_map handlers (obj_get sample_key (REQUESTS st_cached_pending))
    = Some [Resolve 0] /\
  option_map handlers
    (obj_get sample_key
       (REQUESTS
          (snd (POST sample_getKey sample_clock st_cached_pending goodreads
                  (post_body None None)))))
    = Some [Resolve 0; Resolve 1].
Proof.
  split.
  - exists cached_file. split; [reflexivity|].
    split; [reflexivity | now left].
  - repeat split; reflexivity.
Qed.

(** Both halves of the enqueue order on the sample states: the pending
    request is joined by a caller that gave a reply address, and without
    a pending request the cached body is served. *)
Lemma enqueue_order_sample :
  (let '(res, st') :=
     POST sample_getKey sample_clock st_cached_pending goodreads
       (post_body None (Some "https://valid.domain.tld/webhook")) in
   res_headers res = [("x-request-key", sample_key)] /\
   (status res = 202 /\ body res = Null) /\
   option_map handlers (obj_get sample_key (REQUESTS st'))
     = Some [Resolve 0; Reply "https://valid.domain.tld/webhook"]) /\
  POST sample_getKey sample_clock st_cached goodreads (post_body None None)
    = (mkResponse 200 [("x-from-cache", sample_key)] (FileStream sample_bytes),
       st_cached).
Proof.
  split.
  - pose proof
      (proj1 (POST_joins_before_reading_cache sample_getKey sample_clock
                st_cached_pending goodreads
                (post_body None (Some "https://valid.domain.tld/webhook")))
         _ eq_refl eq_refl) as H.
    destruct (POST sample_getKey sample_clock st_cached_pending goodreads
                (post_body None (Some "https://valid.domain.tld/webhook")))
      as [res st'].
    destruct H as (Hh & Hs & Hget). split; [exact Hh|]. split; [exact Hs|].
    exact (f_equal (option_map handlers) Hget).
  - refine (proj2 (POST_joins_before_reading_cache sample_getKey sample_clock
                     st_cached goodreads (post_body None None))
              cached_file eq_refl eq_refl _).
    split; [reflexivity | now left].
Defined.

(** At [now = mtime + expire] the cached body is not served: the request
    is enqueued. *)
Lemma boundary_enqueues :
  now_fresh sample_clock = 1700000000000 + 100000 /\
  obj_get sample_key (REQUESTS st_cached) = None /\
  obj_get sample_key (files st_cached) = Some cached_file /\
  mtime cached_file = Some 1700000000000 /\
  fst (POST sample_getKey sample_clock st_cached goodreads
         (post_body (Some 100000) None))
    = mkResponse 200 [("x-request-key", sample_key)] (PromiseStream 0) /\
  fst (POST sample_getKey sample_clock st_cached goodreads
         (post_body (Some 100000) None))
    <> cached sample_key cached_file /\
  option_map handlers
    (obj_get sample_key
       (REQUESTS
          (snd (POST sample_getKey sample_clock st_cached goodreads
                  (post_body (Some 100000) None)))))
    = Some [Resolve 0].
Proof.
  repeat split; try reflexivity. vm_compute. discriminate.
Qed.

(** The expiry rule on [st_cached]: served one millisecond before the
    boundary, enqueued at it. *)
Lemma expiry_sample :
  POST sample_getKey sample_clock st_cached goodreads
    (post_body (Some 100001) None) = (cached sample_key cached_file, st_cached)
  /\
  POST sample_getKey sample_clock st_cached goodreads
    (post_body (Some 100000) None)
  = enqueue sample_clock st_cached goodreads sample_key
      (post_body (Some 100000) None).
Proof.
  split.
  - refine (proj1 (POST_expired_from_boundary sample_getKey sample_clock
                     st_cached goodreads (post_body (Some 100001) None)
                     cached_file 1700000000000 100001
                     eq_refl eq_refl eq_refl eq_refl eq_refl _) _).
    + discriminate.
    + reflexivity.
  - refine (proj2 (proj2 (POST_expired_from_boundary sample_getKey sample_clock
                     st_cached goodreads (post_body (Some 100000) None)
                     cached_file 1700000000000 100000
                     eq_refl eq_refl eq_refl eq_refl eq_refl _) _)).
    + discriminate.
    + discriminate.
Defined.

(** A [GET /foo] is not answered 404: it is dispatched the oldest
    eligible request of [st_three]. *)
Lemma GET_other_path_dispatches :
  method (get_request "/foo" [("x-client-id", "aF7my75$")]) = "GET" /\
  fst (fst (httpHandler sample_getKey 0 sample_clock st_three
              (get_request "/foo" [("x-client-id", "aF7my75$")])))
    = Returned
        (mkResponse 200 json_headers
           (NextJson "goodreads.com/c" "https://goodreads.com/lol?w=6" None 2))
  /\
  fst (fst (httpHandler sample_getKey 0 sample_clock st_three
              (get_request "/foo" [("x-client-id", "aF7my75$")])))
    <> Returned NOT_FOUND.
Proof.
  repeat split; try reflexivity. vm_compute. discriminate.
Qed.

(** The routes on sample requests: a DELETE is a 404, a GET to [/foo] is
    handled as [GET /]. *)
Lemma routes_sample :
  httpHandler sample_getKey 0 sample_clock st_three
    (mkHttpRequest "DELETE" "/" [] [] None)
    = (Returned NOT_FOUND, st_three, []) /\
  httpHandler sample_getKey 0 sample_clock st_three
    (get_request "/foo" [("x-client-id", "aF7my75$")])
    = httpHandler sample_getKey 0 sample_clock st_three
        (get_request "/" [("x-client-id", "aF7my75$")]).
Proof.
  split.
  - refine (proj1 (httpHandler_routes sample_getKey 0 sample_clock st_three
                     (mkHttpRequest "DELETE" "/" [] [] None)) _ _);
      discriminate.
  - rewrite (proj1 (proj2 (httpHandler_routes sample_getKey 0 sample_clock
                             st_three
                             (get_request "/foo" [("x-client-id", "aF7my75$")])))
               eq_refl ltac:(discriminate) ltac:(discriminate)).
    reflexivity.
Defined.

(** The hourly sweep removes the expired cooldown of [st_three], and with
    it the client's entry; a cooldown still running is kept as written. *)
Lemma sweep_sample :
  localStorage (cleanupLocalStorageTimers 1700000100000 st_three) = [] /\
  localStorage (cleanupLocalStorageTimers 1700000100000 st_cooling)
    = localStorage st_cooling.
Proof. split; reflexivity. Qed.

(** A client that names itself in [x-client-id] is dispatched work. *)
Lemma GET_with_client_id_sample :
  fst (handleRequestNextInQueue sample_clock st_three
         (get_request "/" [("x-client-id", "aF7my75$")]))
  = Returned
      (mkResponse 200 json_headers
         (NextJson "goodreads.com/c" "https://goodreads.com/lol?w=6" None 2)).
Proof. reflexivity. Qed.

(** A [GET /] that carries [x-forwarded-for] only, on [st_three] where
    two requests wait: it is answered 400. *)
Lemma forwarded_for_only_sample :
  obj_get "x-forwarded-for"
    (r_headers (get_request "/" [("x-forwarded-for", "203.0.113.7")]))
    = Some "203.0.113.7" /\
  httpHandler sample_getKey 0 sample_clock st_three
    (get_request "/" [("x-forwarded-for", "203.0.113.7")])
  = (Returned (fail 400 "expect the x-client-id header to be set"),
     st_three, []).
Proof.
  split; [reflexivity|].
  change (httpHandler sample_getKey 0 sample_clock st_three
            (get_request "/" [("x-forwarded-for", "203.0.113.7")]))
    with (let '(res, st') :=
            handleRequestNextInQueue sample_clock st_three
              (get_request "/" [("x-forwarded-for", "203.0.113.7")]) in
          (res, st', @nil Effect)).
  rewrite (proj2 (getClient_ignores_x_forwarded_for sample_clock st_three
                    (get_request "/" [("x-forwarded-for", "203.0.113.7")])
                    eq_refl eq_refl eq_refl eq_refl)).
  reflexivity.
Defined.

(** The webhook of [st_three] answering 500, then 200. *)
Lemma webhook_500_200_sample :
  sendReply sample_post 0 [500; 200]
  = ([Fetch sample_post; Fetch sample_post], true).
Proof.
  refine (proj1 (sendReply_first_retry_immediate sample_post 200 [] _)).
  discriminate.
Defined.

(** * Further properties of the code *)

(** ** Objects *)

Lemma obj_get_set_other {V} (k k' : string) (v : V) (o : obj V) :
  k <> k' -> obj_get k (obj_set k' v o) = obj_get k o.
Proof.
  intros Hne. induction o as [|[k0 v0] o IH]; simpl.
  - apply String.eqb_neq in Hne. now rewrite Hne.
  - destruct (String.eqb_spec k' k0) as [->|Hk0]; simpl.
    + apply String.eqb_neq in Hne. now rewrite Hne.
    + now rewrite IH.
Qed.

Lemma obj_get_delete_other {V} (k k' : string) (o : obj V) :
  k <> k' -> obj_get k (obj_delete k' o) = obj_get k o.
Proof.
  intros Hne. induction o as [|[k0 v0] o IH]; simpl; [reflexivity|].
  destruct (String.eqb_spec k' k0) as [->|Hk0]; simpl.
  - apply String.eqb_neq in Hne. now rewrite Hne.
  - now rewrite IH.
Qed.

Lemma obj_get_In {V} (k : string) (v : V) (o : obj V) :
  obj_get k o = Some v -> In (k, v) o.
Proof.
  induction o as [|[k0 v0] o IH]; simpl; [discriminate|].
  destruct (String.eqb_spec k k0) as [->|Hne].
  - intros [= ->]. now left.
  - intros H. right. now apply IH.
Qed.

Lemma obj_get_None_keys {V} (k : string) (o : obj V) :
  obj_get k o = None <-> ~ In k (keys o).
Proof.
  induction o as [|[k0 v0] o IH]; simpl; [tauto|].
  destruct (String.eqb_spec k k0) as [->|Hne].
  - split; [discriminate | intros H; exfalso; apply H; now left].
  - rewrite IH. split; [intros H [E|E]; [congruence | auto] | tauto].
Qed.

Lemma keys_obj_set {V} (k : string) (v : V) (o : obj V) :
  keys (obj_set k v o) =
  match obj_get k o with
  | Some _ => keys o
  | None => (keys o ++ [k])%list
  end.
Proof.
  induction o as [|[k0 v0] o IH]; simpl; [reflexivity|].
  destruct (String.eqb_spec k k0) as [->|Hne]; simpl; [reflexivity|].
  rewrite IH. now destruct (obj_get k o).
Qed.

Lemma NoDup_keys_obj_set {V} (k : string) (v : V) (o : obj V) :
  NoDup (keys o) -> NoDup (keys (obj_set k v o)).
Proof.
  intros H. rewrite keys_obj_set.
  destruct (obj_get k o) eqn:E; [assumption|].
  apply obj_get_None_keys in E.
  apply NoDup_app; [assumption | repeat constructor; intros [] | ].
  intros x Hin [<-|[]]. contradiction.
Qed.

Lemma Forall_obj_set {V} (P : string * V -> Prop) (k : string) (v : V)
    (o : obj V) :
  P (k, v) -> Forall P o -> Forall P (obj_set k v o).
Proof.
  intros Hkv. induction o as [|[k0 v0] o IH]; simpl; intros Hall.
  - now constructor.
  - inversion Hall; subst.
    destruct (String.eqb_spec k k0) as [->|Hne]; constructor; auto.
Qed.

Lemma obj_get_filter {V} (P : string * V -> bool) (k : string) (v : V)
    (o : obj V) :
  obj_get k o = Some v -> P (k, v) = true -> obj_get k (filter P o) = Some v.
Proof.
  induction o as [|[k0 v0] o IH]; simpl; [discriminate|].
  destruct (String.eqb_spec k k0) as [->|Hne].
  - intros [= ->] HP. rewrite HP. simpl. now rewrite String.eqb_refl.
  - intros Hget HP. destruct (P (k0, v0)); simpl; auto.
    apply String.eqb_neq in Hne. rewrite Hne. auto.
Qed.

(** ** Cooldown codec: what a stored string decodes to *)

Lemma comma_free_app (a b : string) :
  comma_free (a ++ b) = comma_free a && comma_free b.
Proof.
  induction a as [|x a IH]; simpl; [reflexivity|].
  now rewrite IH, andb_assoc.
Qed.

Lemma Forall_keys_obj_set {V} (P : string -> Prop) (k : string) (v : V)
    (o : obj V) :
  P k -> Forall P (keys o) -> Forall P (keys (obj_set k v o)).
Proof.
  intros Hk Hall. rewrite keys_obj_set. destruct (obj_get k o); [assumption|].
  apply Forall_app. split; [assumption | now repeat constructor].
Qed.

Lemma decode_token_inv now d : decode_inv d -> decode_inv (decode_token now d).
Proof.
  intros (Hnd & Hnames & Hq & Hc). unfold decode_token, decode_inv.
  destruct (String.eqb_spec (queueName d) "") as [E|E]; simpl.
  - auto.
  - destruct (Number (currentStr d)) as [v|]; [|auto].
    destruct (truthy_num (Some v) && (now <? v)); [|auto].
    repeat split; auto using NoDup_keys_obj_set.
    apply Forall_keys_obj_set; [now split | assumption].
Qed.

Lemma decode_loop_inv now s : forall d, decode_inv d -> decode_inv (decode_loop now s d).
Proof.
  induction s as [|c s IH]; intros d H; simpl.
  - now apply decode_token_inv.
  - destruct (Ascii.eqb c ",") eqn:E; apply IH.
    + now apply decode_token_inv.
    + destruct H as (Hnd & Hnames & Hq & Hc). repeat split; auto.
      simpl. rewrite comma_free_app, Hc. simpl. now rewrite E.
Qed.

Lemma decoded_names (now : Z) (enc : option string) :
  NoDup (keys (decodeTimers now enc)) /\
  Forall name_ok (keys (decodeTimers now enc)).
Proof.
  unfold decodeTimers. destruct (truthy_str enc); [|split; constructor].
  destruct enc as [s|]; [|split; constructor].
  destruct (decode_loop_inv now s (mkDecode "" "" [])) as (H1 & H2 & _).
  - repeat split; constructor.
  - split; assumption.
Qed.

Lemma decoded_locked (now : Z) (enc : option string) (k : string) (v : Z) :
  obj_get k (decodeTimers now enc) = Some v -> v <> 0 /\ now < v.
Proof.
  intros Hget.
  pose proof (obj_get_Forall _ _ _ _ (decodeTimers_unexpired now enc) Hget) as H.
  unfold unexpired in H. simpl in H. apply andb_prop in H as [H1 H2].
  apply negb_true_iff, Z.eqb_neq in H1. apply Z.ltb_lt in H2. now split.
Qed.

(** X1: whatever string is stored, the names [decodeTimers] returns are
    pairwise distinct, not empty and free of commas, and every entry is
    still locked: its [unlockAt] is not zero and is after [now]. *)
Theorem decodeTimers_wellformed (now : Z) (enc : option string) :
  NoDup (keys (decodeTimers now enc)) /\
  Forall name_ok (keys (decodeTimers now enc)) /\
  forall k v, obj_get k (decodeTimers now enc) = Some v -> v <> 0 /\ now < v.
Proof.
  destruct (decoded_names now enc) as [H1 H2].
  repeat split; auto; now apply (decoded_locked now enc k v).
Qed.

Lemma encodeTimers_not_empty (e : string * Z) (t : TimersInfo) :
  fst e <> "" -> encodeTimers (e :: t) <> "".
Proof.
  destruct e as [k v]. simpl. intros Hk.
  destruct k as [|c k]; [congruence|].
  unfold encodeTimers, entry_toString.
  destruct t; cbn [map join fst append]; discriminate.
Qed.

(** The round trip of the codec, for names the codec can carry. *)
Lemma decode_encode (now : Z) (t : TimersInfo) :
  NoDup (keys t) -> Forall name_ok (keys t) ->
  decodeTimers now (Some (encodeTimers t)) = filter (unexpired now) t.
Proof.
  intros Hnd Hnames. destruct t as [|e t]; [reflexivity|].
  pose proof (decode_loop_encode now (e :: t) [] ltac:(discriminate) Hnd
                Hnames ltac:(intros k _ [])) as Hloop.
  assert (Hne : encodeTimers (e :: t) <> "").
  { apply encodeTimers_not_empty. inversion Hnames as [|? ? [Hk _] _]. exact Hk. }
  unfold decodeTimers.
  destruct (encodeTimers (e :: t)) eqn:Henc; [congruence|].
  simpl truthy_str. cbv iota. now rewrite Hloop.
Qed.

Lemma filter_all {A} (P : A -> bool) (l : list A) :
  Forall (fun x => P x = true) l -> filter P l = l.
Proof.
  induction 1 as [|x l Hx _ IH]; simpl; [reflexivity|].
  now rewrite Hx, IH.
Qed.

Lemma decoded_stable (now : Z) (enc : option string) :
  decodeTimers now (Some (encodeTimers (decodeTimers now enc)))
  = decodeTimers now enc.
Proof.
  destruct (decoded_names now enc) as [Hnd Hnames].
  rewrite decode_encode by assumption.
  apply filter_all, decodeTimers_unexpired.
Qed.

(** X2: what [decodeTimers] returns is a fixed point of the codec:
    encoded and decoded again at the same [now] it is unchanged, and so
    is its encoding, for any stored string. *)
Theorem decodeTimers_reencode_stable (now : Z) (enc : option string) :
  let after := encodeTimers (decodeTimers now enc) in
  decodeTimers now (Some after) = decodeTimers now enc /\
  encodeTimers (decodeTimers now (Some after)) = after.
Proof.
  simpl. now rewrite decoded_stable.
Qed.

(** ** The sweep of the cooldown store *)

Lemma obj_delete_absent {V} (k : string) (o : obj V) :
  obj_get k o = None -> obj_delete k o = o.
Proof.
  induction o as [|[k0 v0] o IH]; simpl; [reflexivity|].
  destruct (String.eqb k k0); [discriminate|].
  intros H. now rewrite IH.
Qed.

Lemma swept_idempotent now before :
  swept now (swept now before) = swept now before.
Proof.
  destruct before as [b|]; [|reflexivity]. simpl.
  destruct (String.eqb_spec (encodeTimers (decodeTimers now (Some b))) "")
    as [E|E]; [reflexivity|].
  simpl. rewrite decoded_stable.
  apply String.eqb_neq in E. now rewrite E.
Qed.

Lemma cleanup_entry_get now ls c k :
  obj_get k (cleanup_entry now ls c) =
  if String.eqb k c then swept now (obj_get c ls) else obj_get k ls.
Proof.
  unfold cleanup_entry.
  destruct (String.eqb_spec k c) as [->|Hne].
  - destruct (obj_get c ls) as [b|] eqn:Hb; simpl.
    + destruct (String.eqb (encodeTimers (decodeTimers now (Some b))) "").
      * apply obj_get_delete.
      * destruct (String.eqb_spec b (encodeTimers (decodeTimers now (Some b))))
          as [E|E].
        -- now rewrite Hb, E at 1.
        -- apply obj_get_set.
    + apply obj_get_delete.
  - destruct (String.eqb _ ""); [now apply obj_get_delete_other|].
    destruct (match obj_get c ls with Some b => _ | None => false end);
      [reflexivity | now apply obj_get_set_other].
Qed.

Lemma cleanup_fold_get now l :
  forall ls k,
  obj_get k (fold_left (cleanup_entry now) l ls) =
  if existsb (String.eqb k) l then swept now (obj_get k ls) else obj_get k ls.
Proof.
  induction l as [|c l IH]; intros ls k; simpl; [reflexivity|].
  rewrite IH, cleanup_entry_get.
  destruct (String.eqb_spec k c) as [->|Hne]; simpl.
  - destruct (existsb (String.eqb c) l); [apply swept_idempotent | reflexivity].
  - reflexivity.
Qed.

Lemma sweep_lookup (now : Z) (st : State) (k : string) :
  obj_get k (localStorage (cleanupLocalStorageTimers now st))
  = swept now (obj_get k (localStorage st)).
Proof.
  unfold cleanupLocalStorageTimers. simpl. rewrite cleanup_fold_get.
  destruct (existsb (String.eqb k) (keys (localStorage st))) eqn:E;
    [reflexivity|].
  assert (Hnone : obj_get k (localStorage st) = None).
  { apply obj_get_None_keys. intros Hin.
    assert (existsb (String.eqb k) (keys (localStorage st)) = true)
      by (apply existsb_exists; exists k; split;
          [assumption | apply String.eqb_refl]).
    congruence. }
  now rewrite Hnone.
Qed.

(** X3: after the sweep run at [now], a client id holds the re-encoding
    of what its string decodes to at [now], and holds nothing when that
    is empty; what it holds decodes at [now] to what the string before
    decoded to, so no cooldown still running is lost; nothing but the
    cooldown store is changed. *)
Theorem cleanupLocalStorageTimers_keeps_running (now : Z) (st : State)
    (k : string) :
  let st' := cleanupLocalStorageTimers now st in
  obj_get k (localStorage st') = swept now (obj_get k (localStorage st)) /\
  decodeTimers now (obj_get k (localStorage st'))
    = decodeTimers now (obj_get k (localStorage st)) /\
  REQUESTS st' = REQUESTS st /\ QUEUES st' = QUEUES st /\
  CLIENTS st' = CLIENTS st /\ files st' = files st.
Proof.
  cbv zeta. rewrite sweep_lookup. repeat split.
  destruct (obj_get k (localStorage st)) as [b|]; [|reflexivity]. simpl.
  destruct (String.eqb_spec (encodeTimers (decodeTimers now (Some b))) "")
    as [E|E].
  - rewrite <- (decoded_stable now (Some b)), E. reflexivity.
  - apply decoded_stable.
Qed.

Lemma cleanup_entry_fixed now ls c :
  (forall k, swept now (obj_get k ls) = obj_get k ls) ->
  cleanup_entry now ls c = ls.
Proof.
  intros Hfix. specialize (Hfix c). unfold cleanup_entry.
  destruct (obj_get c ls) as [b|] eqn:Hb; simpl in *.
  - destruct (String.eqb (encodeTimers (decodeTimers now (Some b))) "");
      [discriminate|].
    injection Hfix as Hfix. rewrite Hfix. now rewrite String.eqb_refl.
  - now apply obj_delete_absent.
Qed.

Lemma cleanup_fold_fixed now l ls :
  (forall k, swept now (obj_get k ls) = obj_get k ls) ->
  fold_left (cleanup_entry now) l ls = ls.
Proof.
  intros Hfix. induction l as [|c l IH]; simpl; [reflexivity|].
  now rewrite cleanup_entry_fixed.
Qed.

(** X4: the sweep is idempotent: run again at the same [now], it
    leaves the state it produced as it is. *)
Theorem cleanupLocalStorageTimers_idempotent (now : Z) (st : State) :
  cleanupLocalStorageTimers now (cleanupLocalStorageTimers now st)
  = cleanupLocalStorageTimers now st.
Proof.
  assert (Hfix : forall k,
            swept now
              (obj_get k (localStorage (cleanupLocalStorageTimers now st)))
            = obj_get k (localStorage (cleanupLocalStorageTimers now st))).
  { intros k. rewrite sweep_lookup. apply swept_idempotent. }
  generalize dependent (cleanupLocalStorageTimers now st). intros st1 Hfix.
  unfold cleanupLocalStorageTimers.
  rewrite cleanup_fold_fixed by assumption. now destruct st1.
Qed.

(** ** Invariants of the tables *)

Lemma handler_eqb_eq (a b : PendingRequestHandler) :
  handler_eqb a b = true <-> a = b.
Proof.
  destruct a as [p|u], b as [q|v]; simpl; try (split; discriminate).
  - rewrite Nat.eqb_eq. split; congruence.
  - rewrite String.eqb_eq. split; congruence.
Qed.

Lemma set_add_NoDup h s : NoDup s -> NoDup (set_add h s).
Proof.
  intros H. unfold set_add. destruct (existsb (handler_eqb h) s) eqn:E;
    [assumption|].
  apply NoDup_app; [assumption | repeat constructor; intros [] |].
  intros x Hin [->|[]].
  assert (existsb (handler_eqb x) s = true)
    by (apply existsb_exists; exists x; split;
        [assumption | now apply handler_eqb_eq]).
  congruence.
Qed.

Lemma set_add_not_nil h s : set_add h s <> [].
Proof.
  unfold set_add. destruct (existsb (handler_eqb h) s) eqn:E.
  - destruct s; [discriminate | discriminate].
  - destruct s; discriminate.
Qed.

Lemma set_add_Forall (P : PendingRequestHandler -> Prop) h s :
  P h -> Forall P s -> Forall P (set_add h s).
Proof.
  intros Hh Hs. unfold set_add. destruct (existsb (handler_eqb h) s);
    [assumption|].
  apply Forall_app. split; [assumption | now repeat constructor].
Qed.

Lemma obj_set_set {V} (k : string) (v1 v2 : V) (o : obj V) :
  obj_set k v2 (obj_set k v1 o) = obj_set k v2 o.
Proof.
  induction o as [|[k0 v0] o IH]; simpl.
  - now rewrite String.eqb_refl.
  - destruct (String.eqb k k0) eqn:E; simpl; rewrite E; [reflexivity|].
    now rewrite IH.
Qed.

Lemma In_obj_delete {V} (k : string) (x : string * V) (o : obj V) :
  In x (obj_delete k o) -> In x o /\ fst x <> k.
Proof.
  induction o as [|[k0 v0] o IH]; simpl; [tauto|].
  destruct (String.eqb_spec k k0) as [->|Hne].
  - intros H. destruct (IH H). auto.
  - intros [<-|H]; [simpl; split; [now left | congruence]|].
    destruct (IH H). auto.
Qed.

Lemma NoDup_keys_obj_delete {V} (k : string) (o : obj V) :
  NoDup (keys o) -> NoDup (keys (obj_delete k o)).
Proof.
  induction o as [|[k0 v0] o IH]; simpl; intros H; [constructor|].
  inversion H as [|? ? Hnotin Hnd]; subst.
  destruct (String.eqb k k0); [auto|].
  simpl. constructor; [|auto].
  intros Hin. apply Hnotin. unfold keys in *. apply in_map_iff in Hin.
  destruct Hin as ([k1 v1] & <- & Hin). apply In_obj_delete in Hin as [Hin _].
  apply in_map_iff. now exists (k1, v1).
Qed.

Lemma obj_get_NoDup {V} (k : string) (v : V) (o : obj V) :
  NoDup (keys o) -> In (k, v) o -> obj_get k o = Some v.
Proof.
  induction o as [|[k0 v0] o IH]; simpl; intros Hnd Hin; [contradiction|].
  inversion Hnd as [|? ? Hnotin Hnd']; subst.
  destruct Hin as [[= -> ->]|Hin].
  - now rewrite String.eqb_refl.
  - destruct (String.eqb_spec k k0) as [->|Hne]; [|auto].
    exfalso. apply Hnotin. apply in_map_iff. now exists (k0, v).
Qed.

(** Allocating promises and changing other stores keep an entry well
    formed. *)
Lemma request_ok_mono st st' kr :
  QUEUES st' = QUEUES st -> (promises st <= promises st')%nat ->
  request_ok st kr -> request_ok st' kr.
Proof.
  intros HQ Hp (H1 & H2 & H3 & H4 & H5). repeat split; auto.
  - eapply Forall_impl; [|exact H4].
    intros [p|u]; simpl; [lia | auto].
  - now rewrite HQ.
Qed.

Lemma table_ok_frame st st' :
  REQUESTS st' = REQUESTS st -> QUEUES st' = QUEUES st ->
  promises st' = promises st -> table_ok st -> table_ok st'.
Proof.
  intros HR HQ HP (H1 & H2 & H3). unfold table_ok. rewrite HR, HQ.
  repeat split; auto.
  eapply Forall_impl; [|exact H2].
  intros kr. apply request_ok_mono; [assumption | lia].
Qed.

Lemma request_ok_found st k r :
  table_ok st -> obj_get k (REQUESTS st) = Some r -> request_ok st (k, r).
Proof.
  intros (_ & H & _) Hget. apply obj_get_In in Hget.
  rewrite Forall_forall in H. now apply H.
Qed.

Lemma buildResponse_table_ok st req reply :
  table_ok st -> table_ok (snd (buildResponse st req reply)).
Proof.
  intros Hok.
  assert (Hadd : forall h n,
            handler_bound n h -> (promises st <= n)%nat ->
            table_ok (with_promises n
                        (with_REQUESTS (add_handler h (key req) (REQUESTS st))
                           st))).
  { intros h n Hh Hn. unfold add_handler.
    destruct (obj_get (key req) (REQUESTS st)) as [r|] eqn:Hget.
    - pose proof (request_ok_found _ _ _ Hok Hget) as (K1 & K2 & K3 & K4 & K5).
      destruct Hok as (H1 & H2 & H3). simpl in *.
      split; [now apply NoDup_keys_obj_set|]. split; [|assumption].
      apply Forall_obj_set.
      + repeat split; simpl; auto using set_add_not_nil, set_add_NoDup.
        apply set_add_Forall; [assumption|].
        eapply Forall_impl; [|exact K4]. intros [p|u]; simpl; [lia | auto].
      + eapply Forall_impl; [|exact H2].
        intros kr. apply request_ok_mono; [reflexivity | assumption].
    - destruct Hok as (H1 & H2 & H3). repeat split; auto.
      eapply Forall_impl; [|exact H2].
      intros kr. apply request_ok_mono; [reflexivity | assumption]. }
  unfold buildResponse.
  destruct (if truthy_str reply then reply else None) as [url|]; simpl.
  - specialize (Hadd (Reply url) (promises st) I (le_n _)).
    now destruct st.
  - apply (Hadd (Resolve (promises st)) (S (promises st))); simpl; lia.
Qed.

Lemma enqueue_REQUESTS clk st queue k b :
  REQUESTS (snd (enqueue clk st queue k b)) =
  obj_set k
    (mkRequest k (b_href b) (b_headers b) (perf_now clk) None (name queue)
       [caller_handler st (reply b)] 0)
    (REQUESTS st)
  /\ QUEUES (snd (enqueue clk st queue k b)) = QUEUES st
  /\ (promises st <= promises (snd (enqueue clk st queue k b)))%nat
  /\ handler_bound (promises (snd (enqueue clk st queue k b)))
       (caller_handler st (reply b))
  /\ CLIENTS (snd (enqueue clk st queue k b)) = CLIENTS st
  /\ localStorage (snd (enqueue clk st queue k b)) = localStorage st
  /\ files (snd (enqueue clk st queue k b)) = files st.
Proof.
  unfold enqueue, push, buildResponse, caller_handler. simpl.
  destruct (if truthy_str (reply b) then reply b else None) as [url|]; simpl;
    unfold add_handler; simpl; rewrite obj_get_set, obj_set_set;
    repeat split; auto; lia.
Qed.

Lemma enqueue_table_ok clk st queue k b :
  table_ok st ->
  (exists q', obj_get (name queue) (QUEUES st) = Some q' /\
              name q' = name queue) ->
  table_ok (snd (enqueue clk st queue k b)).
Proof.
  intros (H1 & H2 & H3) Hq.
  destruct (enqueue_REQUESTS clk st queue k b) as (HR & HQ & HP & Hb & _).
  unfold table_ok. rewrite HR, HQ.
  split; [now apply NoDup_keys_obj_set|]. split; [|assumption].
  apply Forall_obj_set.
  - repeat split; simpl; try discriminate.
    + repeat constructor. intros [].
    + now repeat constructor.
    + now rewrite HQ.
  - eapply Forall_impl; [|exact H2].
    intros kr. now apply request_ok_mono.
Qed.

Section TablePreservation.

Variable getKey : string -> string.
Variable dispatcheStartAt : Z.

Lemma POST_table_ok clk st queue b :
  table_ok st ->
  (exists q', obj_get (name queue) (QUEUES st) = Some q' /\
              name q' = name queue) ->
  table_ok (snd (POST getKey clk st queue b)).
Proof.
  intros Hok Hq. unfold POST.
  destruct (obj_get _ (REQUESTS st)) as [req|].
  - now apply buildResponse_table_ok.
  - destruct (read_cache _ _ _ _); simpl; auto.
    now apply enqueue_table_ok.
Qed.

Lemma registerQueue_table_ok now nm dl st q st' :
  table_ok st ->
  registerQueue now nm dl [] st = Returned (q, st') ->
  table_ok st' /\ q = mkQueue nm dl /\ obj_get nm (QUEUES st') = Some q.
Proof.
  intros (H1 & H2 & H3). unfold registerQueue.
  destruct (mkdir now nm (files st)) as [fs|m]; [|discriminate].
  intros [= <- <-]. simpl.
  assert (Hlook : forall k q0,
            obj_get k (obj_set nm (mkQueue nm dl) (QUEUES st)) = Some q0 ->
            name q0 = k \/ obj_get k (QUEUES st) = Some q0).
  { intros k q0. destruct (String.eqb_spec k nm) as [->|Hne].
    - rewrite obj_get_set. intros [= <-]. now left.
    - rewrite obj_get_set_other by assumption. now right. }
  assert (Hcanon : forall n0,
            (exists q', obj_get n0 (QUEUES st) = Some q' /\ name q' = n0) ->
            exists q', obj_get n0 (obj_set nm (mkQueue nm dl) (QUEUES st))
                       = Some q' /\ name q' = n0).
  { intros n0 (q' & Hq' & Hn). destruct (String.eqb_spec n0 nm) as [->|Hne].
    - exists (mkQueue nm dl). rewrite obj_get_set. auto.
    - exists q'. rewrite obj_get_set_other by assumption. auto. }
  split; [|split; [reflexivity | apply obj_get_set]].
  split; [exact H1|]. split.
  - eapply Forall_impl; [|exact H2].
    intros kr (K1 & K2 & K3 & K4 & K5).
    split; [exact K1|]. split; [exact K2|]. split; [exact K3|].
    split; [exact K4|]. simpl. now apply Hcanon.
  - intros k q0 Hget. simpl in Hget. destruct (Hlook k q0 Hget) as [Hname|Hold].
    + exists q0. now rewrite Hname.
    + apply Hcanon. now apply (H3 k q0).
Qed.

Lemma handleRequestQueue_table_ok clk st request :
  table_ok st -> table_ok (snd (handleRequestQueue getKey clk st request)).
Proof.
  intros Hok. unfold handleRequestQueue.
  destruct (r_json request) as [b|]; [|assumption].
  destruct (obj_get (hostname b) (QUEUES st)) as [queue|] eqn:Hq.
  - apply POST_table_ok; [assumption|].
    destruct Hok as (_ & _ & H3). now apply (H3 (hostname b)).
  - destruct (registerQueue _ _ _ _ st) as [[queue st']|m] eqn:Hreg;
      [|assumption].
    apply registerQueue_table_ok in Hreg as (Hok' & -> & Hget); [|assumption].
    apply POST_table_ok; [assumption|]. simpl. eauto.
Qed.

Lemma getClient_table_ok now st request :
  table_ok st -> table_ok (snd (getClient now st request)).
Proof.
  intros Hok.
  destruct (getClient now st request) as [c st'] eqn:Hc.
  unfold getClient in Hc.
  destruct (if truthy_str _ then _ else None); injection Hc as <- <-;
    [|assumption].
  now apply (table_ok_frame st).
Qed.

Lemma Forall_obj_delete {V} (P : string * V -> Prop) k (o : obj V) :
  Forall P o -> Forall P (obj_delete k o).
Proof.
  intros H. apply Forall_forall. intros x Hin.
  apply In_obj_delete in Hin as [Hin _].
  rewrite Forall_forall in H. auto.
Qed.

Lemma handleRequestResponse_table_ok clk st request k :
  table_ok st ->
  table_ok (snd (fst (handleRequestResponse clk st request k))).
Proof.
  intros Hok. unfold handleRequestResponse.
  destruct (obj_get k (REQUESTS st)) as [req|]; [|assumption].
  pose proof (getClient_table_ok (now_client clk) st request Hok) as Hc.
  destruct (getClient (now_client clk) st request) as [client st1].
  simpl in Hc.
  set (st2 := match client with Some _ => _ | None => st1 end).
  assert (Hok2 : table_ok st2).
  { subst st2. destruct client; [|assumption].
    now apply (table_ok_frame st1). }
  assert (Hdel : forall fs,
            table_ok (with_files fs
                        (with_REQUESTS (obj_delete k (REQUESTS st2)) st2))).
  { intros fs. destruct Hok2 as (H1 & H2 & H3). repeat split; simpl; auto.
    - now apply NoDup_keys_obj_delete.
    - apply Forall_obj_delete. eapply Forall_impl; [|exact H2].
      intros kr. now apply request_ok_mono. }
  destruct (match Number_opt _ with Some 200 => _ | _ => _ end) as [fs|m];
    simpl.
  - apply Hdel.
  - specialize (Hdel (files st2)).
    eapply table_ok_frame; [| | |exact Hdel]; reflexivity.
Qed.

Lemma getNextInQueue_frame now_timers now st clientId out st' :
  getNextInQueue now_timers now st clientId = (out, st') ->
  REQUESTS st' = REQUESTS st /\ QUEUES st' = QUEUES st /\
  promises st' = promises st /\ files st' = files st /\
  CLIENTS st' = CLIENTS st.
Proof.
  unfold getNextInQueue. destruct (scan _ _ _) as [[o|] n].
  - destruct (obj_get (queue o) (QUEUES st)); intros [= <- <-]; simpl; auto.
  - intros [= <- <-]. auto.
Qed.

Lemma obj_update_table_ok st k (f : PendingRequest -> PendingRequest) :
  (forall r, key (f r) = key r /\ handlers (f r) = handlers r /\
             queue (f r) = queue r) ->
  table_ok st -> table_ok (with_REQUESTS (obj_update k f (REQUESTS st)) st).
Proof.
  intros Hf Hok. unfold obj_update.
  destruct (obj_get k (REQUESTS st)) as [r|] eqn:Hget; [|now destruct st].
  pose proof (request_ok_found _ _ _ Hok Hget) as (K1 & K2 & K3 & K4 & K5).
  destruct Hok as (H1 & H2 & H3). destruct (Hf r) as (F1 & F2 & F3).
  split; [now apply NoDup_keys_obj_set|]. split; [|assumption].
  simpl. apply Forall_obj_set.
  - unfold request_ok. simpl. rewrite F1, F2, F3. repeat split; auto.
  - eapply Forall_impl; [|exact H2].
    intros kr. apply request_ok_mono; [reflexivity | simpl; lia].
Qed.

Lemma handleRequestNextInQueue_table_ok clk st request :
  table_ok st -> table_ok (snd (handleRequestNextInQueue clk st request)).
Proof.
  intros Hok. unfold handleRequestNextInQueue.
  pose proof (getClient_table_ok (now_client clk) st request Hok) as Hc.
  destruct (getClient (now_client clk) st request) as [[client|] st1];
    simpl in Hc; [|assumption].
  destruct (getNextInQueue _ _ st1 _) as [out st2] eqn:Hnext.
  apply getNextInQueue_frame in Hnext as (HR & HQ & HP & _).
  assert (Hok2 : table_ok st2) by now apply (table_ok_frame st1).
  destruct out as [r|m]; [|assumption].
  destruct (next r) as [nxt|]; [|assumption]. cbv zeta. cbn [snd].
  match goal with
  | |- table_ok (with_REQUESTS (obj_update _ ?f (REQUESTS ?s)) ?s) =>
      apply (obj_update_table_ok s _ f)
  end.
  - intros r0. simpl. auto.
  - now apply (table_ok_frame st2).
Qed.

Lemma httpHandler_table_ok clk st request :
  table_ok st ->
  table_ok (snd (fst (httpHandler getKey dispatcheStartAt clk st request))).
Proof.
  intros Hok. unfold httpHandler.
  destruct (String.eqb (method request) "POST").
  - destruct (1 <? _).
    + now apply handleRequestResponse_table_ok.
    + pose proof (handleRequestQueue_table_ok clk st request Hok) as H.
      now destruct (handleRequestQueue getKey clk st request).
  - destruct (String.eqb (method request) "GET"); [|assumption].
    destruct (_ || _); [assumption|].
    pose proof (handleRequestNextInQueue_table_ok clk st request Hok) as H.
    now destruct (handleRequestNextInQueue clk st request).
Qed.

Lemma step_table_ok st e :
  table_ok st -> table_ok (step getKey dispatcheStartAt st e).
Proof.
  intros Hok. destruct e as [clk request|now]; simpl.
  - now apply httpHandler_table_ok.
  - now apply (table_ok_frame st).
Qed.

Lemma run_table_ok events :
  forall st, table_ok st -> table_ok (run getKey dispatcheStartAt events st).
Proof.
  induction events as [|e events IH]; intros st Hok; simpl; [assumption|].
  apply IH. now apply step_table_ok.
Qed.

End TablePreservation.

(** ** Start-up *)

Lemma registerQueue_frame now nm dl aliases st q st' :
  registerQueue now nm dl aliases st = Returned (q, st') ->
  q = mkQueue nm dl /\
  QUEUES st' =
    fold_left (fun qs k => obj_set k (mkQueue nm dl) qs) (nm :: aliases)
      (QUEUES st) /\
  REQUESTS st' = REQUESTS st /\ promises st' = promises st /\
  localStorage st' = localStorage st /\ CLIENTS st' = CLIENTS st /\
  mkdir now nm (files st) = Returned (files st').
Proof.
  unfold registerQueue.
  destruct (mkdir now nm (files st)) as [fs|m]; [|discriminate].
  intros [= <- <-]. repeat split.
Qed.

Lemma queues_ok_Forall (qs : obj RequestQueue) :
  Forall (fun kq => exists q', obj_get (name (snd kq)) qs = Some q' /\
                               name q' = name (snd kq)) qs ->
  queues_ok qs.
Proof.
  intros H k q Hget. apply obj_get_In in Hget.
  rewrite Forall_forall in H. exact (H (k, q) Hget).
Qed.

Lemma start_state now stored fs st0 :
  start now stored fs = Returned st0 ->
  REQUESTS st0 = [] /\ CLIENTS st0 = [] /\ promises st0 = O /\
  QUEUES st0 =
    [("goodreads.com", mkQueue "goodreads.com" 30000);
     ("www.goodreads.com", mkQueue "goodreads.com" 30000);
     ("beeceptor.com", mkQueue "beeceptor.com" 1000);
     ("annas-archive.org", mkQueue "annas-archive.org" 60000);
     ("annas-archive.se", mkQueue "annas-archive.org" 60000);
     ("annas-archive.li", mkQueue "annas-archive.org" 60000);
     ("theaudiobookbay.se", mkQueue "theaudiobookbay.se" 40000);
     ("185.247.224.117", mkQueue "theaudiobookbay.se" 40000);
     ("audiobookbay.is", mkQueue "theaudiobookbay.se" 40000);
     ("audiobookbay.lu", mkQueue "theaudiobookbay.se" 40000)] /\
  localStorage st0 =
    localStorage (cleanupLocalStorageTimers now (mkState [] [] [] stored fs 0)).
Proof.
  unfold start, SEEDS, register_all.
  set (s0 := cleanupLocalStorageTimers now (mkState [] [] [] stored fs 0)).
  assert (H0 : QUEUES s0 = [] /\ REQUESTS s0 = [] /\ CLIENTS s0 = [] /\
               promises s0 = O) by (repeat split).
  destruct H0 as (Q0 & R0 & C0 & P0).
  destruct (registerQueue now "goodreads.com" _ _ s0) as [[q1 s1]|] eqn:E1;
    [|discriminate].
  apply registerQueue_frame in E1 as (_ & Q1 & R1 & P1 & L1 & C1 & _).
  destruct (registerQueue now "beeceptor.com" _ _ s1) as [[q2 s2]|] eqn:E2;
    [|discriminate].
  apply registerQueue_frame in E2 as (_ & Q2 & R2 & P2 & L2 & C2 & _).
  destruct (registerQueue now "annas-archive.org" _ _ s2) as [[q3 s3]|] eqn:E3;
    [|discriminate].
  apply registerQueue_frame in E3 as (_ & Q3 & R3 & P3 & L3 & C3 & _).
  destruct (registerQueue now "theaudiobookbay.se" _ _ s3) as [[q4 s4]|] eqn:E4;
    [|discriminate].
  apply registerQueue_frame in E4 as (_ & Q4 & R4 & P4 & L4 & C4 & _).
  intros [= <-].
  rewrite R4, R3, R2, R1, C4, C3, C2, C1, P4, P3, P2, P1, L4, L3, L2, L1.
  rewrite Q4, Q3, Q2, Q1, Q0. repeat split; assumption.
Qed.

Lemma start_table_ok now stored fs st0 :
  start now stored fs = Returned st0 -> table_ok st0.
Proof.
  intros H. apply start_state in H as (HR & _ & _ & HQ & _).
  unfold table_ok. rewrite HR, HQ. split; [constructor|].
  split; [constructor|].
  apply queues_ok_Forall.
  repeat (constructor; [eexists; split; reflexivity|]). constructor.
Qed.

(** X5: in every state the dispatcher reaches from start-up through
    HTTP requests and sweeps, the request table holds at most one request
    per key, each stored under its own key, with at least one waiter and
    no waiter twice, every stream promise allocated, and the queue name
    of every request resolves to a registered queue bearing that name. *)
Theorem reachable_table_ok
    (getKey : string -> string) (dispatcheStartAt now : Z)
    (stored : obj string) (fs : obj FsEntry) (st0 : State)
    (events : list Event) :
  start now stored fs = Returned st0 ->
  table_ok (run getKey dispatcheStartAt events st0).
Proof.
  intros H. apply run_table_ok. now apply (start_table_ok now stored fs).
Qed.

(** ** Dispatch and cooldowns *)

Lemma getNextInQueue_selected now_timers now st clientId res st' r :
  getNextInQueue now_timers now st clientId = (Returned res, st') ->
  next res = Some r ->
  let T := decodeTimers now_timers (obj_get clientId (localStorage st)) in
  In r (values (REQUESTS st)) /\ eligible now T r = true /\
  exists q,
    obj_get (queue r) (QUEUES st) = Some q /\
    st' = with_localStorage
            (obj_set clientId
               (encodeTimers (obj_set (name q) (now + delay q) T))
               (localStorage st)) st.
Proof.
  intros Hrun Hnext T.
  pose proof (scan_spec now T (fun r => eligible_decoded now_timers now _ r)
                (values (REQUESTS st))) as Hinv.
  unfold getNextInQueue in Hrun. fold T in Hrun.
  destruct (scan now T (values (REQUESTS st))) as [[o|] n].
  - destruct Hinv as (_ & Hin & Hel & _). simpl in *.
    destruct (obj_get (queue o) (QUEUES st)) as [q|] eqn:Hq; [|discriminate].
    injection Hrun as <- <-. simpl in Hnext. injection Hnext as <-.
    repeat split; auto. exists q. auto.
  - injection Hrun as <- <-. discriminate.
Qed.

Lemma stored_cooldown (t : Z) (T : TimersInfo) (k : string) (v : Z) :
  NoDup (keys T) -> Forall name_ok (keys T) -> name_ok k ->
  v <> 0 -> t < v ->
  obj_get k (decodeTimers t (Some (encodeTimers (obj_set k v T)))) = Some v.
Proof.
  intros Hnd Hnames Hk Hv Ht.
  rewrite decode_encode;
    [| now apply NoDup_keys_obj_set | now apply Forall_keys_obj_set].
  apply obj_get_filter; [apply obj_get_set|].
  unfold unexpired. simpl.
  apply Z.eqb_neq in Hv. apply Z.ltb_lt in Ht. now rewrite Hv, Ht.
Qed.

(** X6: when [getNextInQueue] hands a request out at [now], the string
    it stores for the client decodes, at any time before
    [now + queue.delay], to timers that hold [now + queue.delay] under the
    queue's name; the other tables are untouched. *)
Theorem getNextInQueue_sets_cooldown
    (now_timers now : Z) (st st' : State) (clientId : string)
    (res : NextInQueue) (r : PendingRequest) :
  getNextInQueue now_timers now st clientId = (Returned res, st') ->
  next res = Some r ->
  exists q,
    obj_get (queue r) (QUEUES st) = Some q /\
    REQUESTS st' = REQUESTS st /\ QUEUES st' = QUEUES st /\
    (name_ok (name q) -> now + delay q <> 0 ->
     forall t, t < now + delay q ->
     obj_get (name q)
       (decodeTimers t (obj_get clientId (localStorage st')))
     = Some (now + delay q)).
Proof.
  intros Hrun Hnext.
  destruct (getNextInQueue_selected _ _ _ _ _ _ _ Hrun Hnext)
    as (_ & _ & q & Hq & ->).
  exists q. repeat split; auto.
  intros Hname Hnz t Ht. simpl. rewrite obj_get_set.
  destruct (decoded_names now_timers (obj_get clientId (localStorage st))).
  now apply stored_cooldown.
Qed.


Lemma table_ok_lookup st r :
  table_ok st -> In r (values (REQUESTS st)) ->
  obj_get (key r) (REQUESTS st) = Some r.
Proof.
  intros (Hnd & Hall & _) Hin. unfold values in Hin.
  apply in_map_iff in Hin as ([k r0] & Hr & Hin). simpl in Hr. subst r0.
  rewrite Forall_forall in Hall. destruct (Hall _ Hin) as (Hk & _).
  simpl in Hk. rewrite Hk. now apply obj_get_NoDup.
Qed.

Lemma obj_get_update {V} (k k' : string) (f : V -> V) (o : obj V) :
  obj_get k (obj_update k' f o) =
  if String.eqb k k' then option_map f (obj_get k' o) else obj_get k o.
Proof.
  unfold obj_update. destruct (String.eqb_spec k k') as [->|Hne].
  - destruct (obj_get k' o) as [v|] eqn:E; simpl; [apply obj_get_set | exact E].
  - destruct (obj_get k' o); [now apply obj_get_set_other | reflexivity].
Qed.

Lemma handleRequestNextInQueue_dispatched clk st request res st' :
  handleRequestNextInQueue clk st request = (Returned res, st') ->
  status res = 200 ->
  exists client st1 r n,
    getClient (now_client clk) st request = (Some client, st1) /\
    In r (values (REQUESTS st)) /\
    eligible (now_scan clk)
      (decodeTimers (now_timers clk)
         (obj_get (client_id client) (localStorage st))) r = true /\
    res = mkResponse 200 json_headers
            (NextJson (key r) (href r) (headers r) n) /\
    REQUESTS st' =
      obj_update (key r) (dispatched (now_start clk)) (REQUESTS st) /\
    CLIENTS st' = obj_update (client_id client) client_started (CLIENTS st1) /\
    files st' = files st /\ QUEUES st' = QUEUES st.
Proof.
  unfold handleRequestNextInQueue.
  destruct (getClient (now_client clk) st request) as [[client|] st1] eqn:Hc.
  - pose proof (getClient_frame _ _ _ _ _ Hc) as (HR & HF & HL & HQ).
    destruct (getNextInQueue _ _ st1 _) as [[r|m] st2] eqn:Hnext;
      [|discriminate].
    destruct (next r) as [nxt|] eqn:Hnxt.
    + intros [= <- <-] _.
      pose proof (getNextInQueue_frame _ _ _ _ _ _ Hnext)
        as (HR2 & HQ2 & _ & HF2 & HC2).
      destruct (getNextInQueue_selected _ _ _ _ _ _ _ Hnext Hnxt)
        as (Hin & Hel & _).
      exists client, st1, nxt, (count r). simpl.
      rewrite HR2, HR, HF2, HF, HQ2, HQ, HC2.
      rewrite HR, HL in *. repeat split; auto.
    + intros H Hst. injection H as <- <-. discriminate Hst.
  - intros H Hst. injection H as <- <-. discriminate Hst.
Qed.

(** X8: when [GET /] is answered with a request, of a table that
    satisfies its invariants, the request named in the answer is the one
    stored under that key; it is stored afterwards with [startedAt] set to
    the time of the dispatch and with [attempts] one higher exactly when
    it had been started before, its waiters unchanged; no other request,
    no file and no queue is changed. *)
Theorem dispatch_marks_request
    (clk : Clock) (st st' : State) (request : Request) (res : Response) :
  table_ok st ->
  handleRequestNextInQueue clk st request = (Returned res, st') ->
  status res = 200 ->
  exists r n,
    body res = NextJson (key r) (href r) (headers r) n /\
    obj_get (key r) (REQUESTS st) = Some r /\
    obj_get (key r) (REQUESTS st') = Some (dispatched (now_start clk) r) /\
    (forall k, k <> key r ->
               obj_get k (REQUESTS st') = obj_get k (REQUESTS st)) /\
    files st' = files st /\ QUEUES st' = QUEUES st.
Proof.
  intros Hok Hrun Hst.
  apply handleRequestNextInQueue_dispatched in Hrun
    as (client & st1 & r & n & Hc & Hin & _ & -> & HR & _ & HF & HQ);
    [|assumption].
  pose proof (table_ok_lookup _ _ Hok Hin) as Hget.
  exists r, n. rewrite HR. repeat split; auto.
  - rewrite obj_get_update, String.eqb_refl, Hget. reflexivity.
  - intros k Hne. rewrite obj_get_update.
    apply String.eqb_neq in Hne. now rewrite Hne.
Qed.

(** X9: in a table that satisfies its invariants, a request whose
    [startedAt] is less than [TIMEOUT] before the scheduler's reading of
    the clock is handed to no client: [GET /] is not answered with its
    key. *)
Theorem in_flight_not_dispatched
    (clk : Clock) (st st' : State) (request : Request) (res : Response)
    (k : string) (r : PendingRequest) (s : Z) :
  table_ok st ->
  obj_get k (REQUESTS st) = Some r ->
  startedAt r = Some s ->
  now_scan clk - s < TIMEOUT ->
  handleRequestNextInQueue clk st request = (Returned res, st') ->
  forall h hd n, body res <> NextJson k h hd n.
Proof.
  intros Hok Hget Hs Hlt Hrun h hd n Hbody.
  assert (Hst : status res = 200).
  { unfold handleRequestNextInQueue in Hrun.
    destruct (getClient _ _ _) as [[c|] st1];
      [|injection Hrun as <- _; discriminate Hbody].
    destruct (getNextInQueue _ _ _ _) as [[r0|m] st2]; [|discriminate].
    destruct (next r0); injection Hrun as <- _;
      [reflexivity | discriminate Hbody]. }
  apply handleRequestNextInQueue_dispatched in Hrun
    as (client & st1 & r2 & n2 & _ & Hin & Hel & -> & _); [|assumption].
  simpl in Hbody. injection Hbody as Hk _ _ _.
  pose proof (table_ok_lookup _ _ Hok Hin) as Hget2.
  rewrite Hk, Hget in Hget2. injection Hget2 as <-.
  unfold eligible in Hel. rewrite Hs in Hel.
  apply andb_prop in Hel as [Hel _]. apply Z.leb_le in Hel. lia.
Qed.

(** ** Enqueue *)



Section EnqueueProperties.

Variable getKey : string -> string.

Lemma enqueue_response clk st queue k b :
  fst (enqueue clk st queue k b) =
  if truthy_str (reply b)
  then mkResponse 202 [("x-request-key", k)] Null
  else mkResponse 200 [("x-request-key", k)] (PromiseStream (promises st)).
Proof.
  unfold enqueue, push, buildResponse. simpl.
  destruct (reply b) as [[|c u]|]; reflexivity.
Qed.

(** X10: an enqueue for a key that is neither pending nor cached
    creates the request: it is stored under the key with the caller as
    its only waiter, not started, zero attempts, the queue's canonical
    name and the time of the enqueue; the answer carries the key, 202
    for a reply address and a 200 stream otherwise; every other request
    and every other table is as before. *)
Theorem POST_creates_request
    (clk : Clock) (st : State) (queue : RequestQueue) (b : PostBody) :
  let k := name queue ++ "/" ++ getKey (pathname b ++ search b) in
  obj_get k (REQUESTS st) = None ->
  obj_get k (files st) = None ->
  exists res st',
    POST getKey clk st queue b = (res, st') /\
    res = (if truthy_str (reply b)
           then mkResponse 202 [("x-request-key", k)] Null
           else mkResponse 200 [("x-request-key", k)]
                  (PromiseStream (promises st))) /\
    obj_get k (REQUESTS st') =
      Some (mkRequest k (b_href b) (b_headers b) (perf_now clk) None
              (name queue) [caller_handler st (reply b)] 0) /\
    (forall k', k' <> k -> obj_get k' (REQUESTS st') = obj_get k' (REQUESTS st))
    /\ QUEUES st' = QUEUES st /\ files st' = files st /\
    localStorage st' = localStorage st /\ CLIENTS st' = CLIENTS st.
Proof.
  intros k Hreq Hfile.
  destruct (enqueue_REQUESTS clk st queue k b)
    as (HR & HQ & _ & _ & HC & HL & HF).
  pose proof (enqueue_response clk st queue k b) as Hres.
  assert (HP : POST getKey clk st queue b = enqueue clk st queue k b).
  { unfold POST. fold k. rewrite Hreq. unfold read_cache. now rewrite Hfile. }
  destruct (enqueue clk st queue k b) as [res st'] eqn:E. simpl in *.
  exists res, st'. rewrite HR. repeat split; auto.
  - apply obj_get_set.
  - intros k' Hne. now apply obj_get_set_other.
Qed.

(** X11: with no request pending for the key, a path that holds
    something else than a regular file is answered 500 and nothing is
    enqueued, and so is a regular file without any date when a non-zero
    [expire] is given; without [expire], or with [expire] zero, a regular
    file is served whatever its age. *)
Theorem POST_cache_errors
    (clk : Clock) (st : State) (queue : RequestQueue) (b : PostBody)
    (file : FsEntry) :
  let k := name queue ++ "/" ++ getKey (pathname b ++ search b) in
  obj_get k (REQUESTS st) = None ->
  obj_get k (files st) = Some file ->
  (isFile file = false ->
   POST getKey clk st queue b = (fail 500 (k ++ " is not a file"), st)) /\
  (isFile file = true -> truthy_num (expire b) = true ->
   cachedDate file = None ->
   POST getKey clk st queue b
     = (fail 500 "unable to access updated time", st)) /\
  (isFile file = true -> truthy_num (expire b) = false ->
   POST getKey clk st queue b = (cached k file, st)).
Proof.
  intros k Hreq Hfile. unfold POST. fold k. rewrite Hreq.
  unfold read_cache. rewrite Hfile. repeat split.
  - intros ->. reflexivity.
  - intros -> He Hd. simpl. destruct (expire b) as [e|]; [|discriminate].
    rewrite He, Hd. reflexivity.
  - intros -> He. simpl. destruct (expire b) as [e|]; [|reflexivity].
    now rewrite He.
Qed.


End EnqueueProperties.

(** ** Delivery *)

Lemma getClient_promises now st request c st' :
  getClient now st request = (c, st') -> promises st' = promises st.
Proof.
  unfold getClient.
  destruct (if truthy_str _ then _ else None); intros [= <- <-]; auto.
Qed.

Lemma handleRequestResponse_found clk st request k req :
  obj_get k (REQUESTS st) = Some req ->
  exists st2,
    REQUESTS st2 = REQUESTS st /\ files st2 = files st /\
    QUEUES st2 = QUEUES st /\ localStorage st2 = localStorage st /\
    promises st2 = promises st /\
    handleRequestResponse clk st request k =
      match (match Number_opt (obj_get "x-status" (r_headers request)) with
             | Some 200 =>
                 writeFile (now_write clk) k (arrayBuffer request) (files st)
             | _ => Returned (files st)
             end) with
      | Returned fs =>
          (Returned EMPTY,
           with_files fs (with_REQUESTS (obj_delete k (REQUESTS st)) st2),
           map (notify req k
                  (Number_opt (obj_get "x-status" (r_headers request)))
                  (arrayBuffer request)) (handlers req))
      | Thrown m =>
          (Thrown m, with_REQUESTS (obj_delete k (REQUESTS st)) st2,
           map (notify req k
                  (Number_opt (obj_get "x-status" (r_headers request)))
                  (arrayBuffer request)) (handlers req))
      end.
Proof.
  intros Hget. unfold handleRequestResponse. rewrite Hget.
  destruct (getClient (now_client clk) st request) as [client st1] eqn:Hc.
  pose proof (getClient_promises _ _ _ _ _ Hc) as HP.
  apply getClient_frame in Hc as (HR & HF & HL & HQ).
  set (st2 := match client with Some _ => _ | None => st1 end).
  exists st2.
  assert (H2 : REQUESTS st2 = REQUESTS st /\ files st2 = files st /\
               QUEUES st2 = QUEUES st /\ localStorage st2 = localStorage st)
    by (subst st2; destruct client; simpl; auto).
  destruct H2 as (HR2 & HF2 & HQ2 & HL2).
  repeat split; auto.
  - subst st2; destruct client; simpl; auto.
  - rewrite HR2, HF2. reflexivity.
Qed.

Lemma writeFile_other now path data fs fs' k :
  writeFile now path data fs = Returned fs' -> k <> path ->
  obj_get k fs' = obj_get k fs.
Proof.
  unfold writeFile. intros H Hne.
  destruct (obj_get path fs) as [e|].
  - destruct (isFile e); [|discriminate]. injection H as <-.
    now apply obj_get_set_other.
  - injection H as <-. now apply obj_get_set_other.
Qed.

(** X13: a delivery for a pending key touches nothing but that key:
    every other request, every other file, the queues, the cooldown store
    and the promise counter are as before; and the key is delivered once,
    a second delivery for it being answered 404 without any effect. *)
Theorem delivery_is_local_and_once
    (clk : Clock) (st st' : State) (request : Request) (k : string)
    (req : PendingRequest) (out : outcome Response) (effects : list Effect) :
  obj_get k (REQUESTS st) = Some req ->
  handleRequestResponse clk st request k = (out, st', effects) ->
  (forall k', k' <> k -> obj_get k' (REQUESTS st') = obj_get k' (REQUESTS st)) /\
  (forall k', k' <> k -> obj_get k' (files st') = obj_get k' (files st)) /\
  QUEUES st' = QUEUES st /\ localStorage st' = localStorage st /\
  promises st' = promises st /\
  forall clk2 request2,
    handleRequestResponse clk2 st' request2 k = (Returned NOT_FOUND, st', []).
Proof.
  intros Hget Hrun.
  destruct (handleRequestResponse_found clk st request k req Hget)
    as (st2 & HR & HF & HQ & HL & HP & Heq).
  rewrite Heq in Hrun. clear Heq.
  assert (Hgone : forall s, obj_get k (obj_delete k (REQUESTS s)) = None)
    by (intros s; apply obj_get_delete).
  destruct (match Number_opt _ with Some 200 => _ | _ => _ end) as [fs|m]
    eqn:Hw; injection Hrun as <- <- <-; simpl; rewrite ?HQ, ?HL, ?HP.
  - repeat split; auto.
    + intros k' Hne. now apply obj_get_delete_other.
    + intros k' Hne.
      destruct (Number_opt _) as [[|p|p]|]; try (injection Hw as <-; reflexivity).
      destruct (Pos.eq_dec p 200) as [->|Hp].
      * now apply (writeFile_other _ _ _ _ _ _ Hw).
      * assert (Hfs : Returned (files st) = Returned fs).
        { rewrite <- Hw. clear - Hp.
          repeat (destruct p as [p|p|]; try reflexivity); congruence. }
        injection Hfs as <-. reflexivity.
    + intros clk2 request2. unfold handleRequestResponse. simpl.
      now rewrite Hgone.
  - repeat split; auto.
    + intros k' Hne. now apply obj_get_delete_other.
    + intros k' Hne. now rewrite HF.
    + intros clk2 request2. unfold handleRequestResponse. simpl.
      now rewrite Hgone.
Qed.

Lemma writeFile_entry now path data fs fs' :
  writeFile now path data fs = Returned fs' ->
  exists e, obj_get path fs' = Some e /\ content e = data /\
            isFile e = true /\ mtime e = Some now.
Proof.
  unfold writeFile. destruct (obj_get path fs) as [e|].
  - destruct (isFile e); intros [= <-].
    rewrite obj_get_set. eexists; repeat split.
  - intros [= <-]. rewrite obj_get_set. eexists; repeat split.
Qed.

(** X14: a body delivered with status 200 and written at [now_write]
    is what a later enqueue for the same key is served from the cache,
    with [x-from-cache], when the enqueue gives no [expire] (or zero) or
    reads the clock before [now_write + expire]; from [now_write + expire]
    on the enqueue creates a new request instead. *)
Theorem delivered_body_is_served
    (getKey : string -> string) (clk clk2 : Clock) (st st' : State)
    (request : Request) (req : PendingRequest) (effects : list Effect)
    (queue : RequestQueue) (b : PostBody) :
  let k := name queue ++ "/" ++ getKey (pathname b ++ search b) in
  obj_get k (REQUESTS st) = Some req ->
  Number_opt (obj_get "x-status" (r_headers request)) = Some 200 ->
  handleRequestResponse clk st request k = (Returned EMPTY, st', effects) ->
  (match expire b with
   | Some e => e = 0 \/ now_fresh clk2 < now_write clk + e
   | None => True
   end ->
   POST getKey clk2 st' queue b =
     (mkResponse 200 [("x-from-cache", k)] (FileStream (arrayBuffer request)),
      st')) /\
  (forall e, expire b = Some e -> e <> 0 ->
   now_write clk + e <= now_fresh clk2 ->
   POST getKey clk2 st' queue b = enqueue clk2 st' queue k b).
Proof.
  intros k Hget H200 Hrun.
  destruct (handleRequestResponse_found clk st request k req Hget)
    as (st2 & HR & HF & HQ & HL & HP & Heq).
  rewrite Heq, H200 in Hrun. clear Heq.
  destruct (writeFile (now_write clk) k (arrayBuffer request) (files st))
    as [fs|m] eqn:Hw; [|discriminate].
  injection Hrun as <- _.
  apply writeFile_entry in Hw as (e0 & He0 & Hcontent & Hfile & Hm).
  assert (Hread : forall now,
            read_cache now fs k (expire b) =
            match expire b with
            | Some e =>
                if negb (truthy_num (Some e)) then Hit (cached k e0)
                else if now <? now_write clk + e then Hit (cached k e0)
                     else Miss
            | None => Hit (cached k e0)
            end).
  { intros now. unfold read_cache, cachedDate. rewrite He0, Hfile, Hm. simpl.
    destruct (expire b); reflexivity. }
  assert (Hcached : cached k e0 =
            mkResponse 200 [("x-from-cache", k)]
              (FileStream (arrayBuffer request)))
    by (unfold cached; now rewrite Hcontent).
  split.
  - intros Hfresh. unfold POST. fold k. simpl. rewrite obj_get_delete, Hread.
    destruct (expire b) as [e|]; [|now rewrite Hcached].
    destruct Hfresh as [->|Hlt]; [now rewrite Hcached|].
    apply Z.ltb_lt in Hlt. rewrite Hlt.
    destruct (negb (truthy_num (Some e))); now rewrite Hcached.
  - intros e He Hnz Hle. unfold POST. fold k. simpl.
    rewrite obj_get_delete, Hread, He.
    apply Z.eqb_neq in Hnz. simpl. rewrite Hnz. simpl.
    apply Z.ltb_ge in Hle. now rewrite Hle.
Qed.

(** ** Clients *)



(** ** Webhook retries *)

Lemma sendReply_trace_from (post : WebhookPost) (s : Z) (rest : list Z) :
  s <> 500 ->
  forall (n : nat) (attempts : Z) (j : nat),
  0 < attempts ->
  sendReply post attempts (repeat 500 n ++ s :: rest) =
  (Fetch post ::
     flat_map
       (fun i => [SetTimeout ((attempts + Z.of_nat i - Z.of_nat j) * 750);
                  Fetch post])
       (seq j n),
   true).
Proof.
  intros Hs. apply Z.eqb_neq in Hs.
  induction n as [|n IH]; intros attempts j Ha; simpl.
  - now rewrite Hs.
  - rewrite (IH (attempts + 1) (S j)) by lia.
    assert (E : (attempts =? 0) = false) by (apply Z.eqb_neq; lia).
    rewrite E. simpl negb. cbv iota. cbn [app].
    replace (attempts + Z.of_nat j - Z.of_nat j) with attempts by lia.
    rewrite (flat_map_ext
               (fun i => [SetTimeout
                            ((attempts + 1 + Z.of_nat i - Z.of_nat (S j)) * 750);
                          Fetch post])
               (fun i => [SetTimeout
                            ((attempts + Z.of_nat i - Z.of_nat j) * 750);
                          Fetch post])).
    + reflexivity.
    + intros i.
      replace (attempts + 1 + Z.of_nat i - Z.of_nat (S j))
        with (attempts + Z.of_nat i - Z.of_nat j) by lia.
      reflexivity.
Qed.

(** X16: against a recipient that answers 500 [n + 1] times and then
    another status, [sendReply(0)] makes [n + 2] requests and returns:
    the first retry follows at once, and the retry after the [i]-th one
    waits [i * 750] ms. *)
Theorem sendReply_backoff_schedule
    (post : WebhookPost) (n : nat) (s : Z) (rest : list Z) :
  s <> 500 ->
  sendReply post 0 (repeat 500 (S n) ++ s :: rest) =
  (Fetch post :: Fetch post ::
     flat_map (fun i => [SetTimeout (Z.of_nat i * 750); Fetch post]) (seq 1 n),
   true).
Proof.
  intros Hs.
  assert (Hfirst : forall l,
            sendReply post 0 (500 :: l) =
            (Fetch post :: fst (sendReply post 1 l),
             snd (sendReply post 1 l))).
  { intros l. simpl. now destruct (sendReply post 1 l). }
  change (repeat 500 (S n) ++ s :: rest)%list
    with (500 :: (repeat 500 n ++ s :: rest))%list.
  rewrite Hfirst.
  rewrite (sendReply_trace_from post s rest Hs n 1 1) by lia.
  cbn [fst snd].
  rewrite (flat_map_ext
             (fun i => [SetTimeout ((1 + Z.of_nat i - Z.of_nat 1) * 750);
                        Fetch post])
             (fun i => [SetTimeout (Z.of_nat i * 750); Fetch post])).
  - reflexivity.
  - intros i.
    replace (1 + Z.of_nat i - Z.of_nat 1) with (Z.of_nat i) by lia.
    reflexivity.
Qed.

(** ** Queue registry *)

Lemma fold_set_get {V} (v : V) (l : list string) :
  forall (o : obj V) (k : string),
  obj_get k (fold_left (fun qs k' => obj_set k' v qs) l o) =
  if existsb (String.eqb k) l then Some v else obj_get k o.
Proof.
  induction l as [|k0 l IH]; intros o k; simpl; [reflexivity|].
  rewrite IH. destruct (String.eqb_spec k k0) as [->|Hne]; simpl.
  - rewrite obj_get_set. now destruct (existsb _ l).
  - rewrite obj_get_set_other by assumption. reflexivity.
Qed.

(** X17: [registerQueue] throws exactly when the path of the queue
    holds a regular file, and then changes nothing.  Otherwise the queue
    [{name, delay}] is what the name and every alias resolve to
    afterwards, replacing whatever they resolved to, every other host
    resolves as before, the directory of the queue exists, and a
    directory that existed is left as it was. *)
Theorem registerQueue_registers
    (now : Z) (nm : string) (dl : Z) (aliases : list string) (st : State) :
  match registerQueue now nm dl aliases st with
  | Thrown _ =>
      exists e, obj_get nm (files st) = Some e /\ isFile e = true
  | Returned (q, st') =>
      q = mkQueue nm dl /\
      (forall k, In k (nm :: aliases) -> obj_get k (QUEUES st') = Some q) /\
      (forall k, ~ In k (nm :: aliases) ->
                 obj_get k (QUEUES st') = obj_get k (QUEUES st)) /\
      option_map isFile (obj_get nm (files st')) = Some false /\
      (obj_get nm (files st) <> None -> files st' = files st) /\
      (forall k, k <> nm -> obj_get k (files st') = obj_get k (files st)) /\
      REQUESTS st' = REQUESTS st
  end.
Proof.
  unfold registerQueue, mkdir.
  destruct (obj_get nm (files st)) as [e|] eqn:He.
  - destruct (isFile e) eqn:Hf; [eauto|].
    split; [reflexivity|]. split; [|split; [|split; [|split; [|split]]]].
    + intros k Hin. cbn [QUEUES with_QUEUES]. rewrite fold_set_get.
      assert (E : existsb (String.eqb k) (nm :: aliases) = true)
        by (apply existsb_exists; exists k; split;
            [assumption | apply String.eqb_refl]).
      now rewrite E.
    + intros k Hin. cbn [QUEUES with_QUEUES]. rewrite fold_set_get.
      destruct (existsb (String.eqb k) (nm :: aliases)) eqn:E; [|reflexivity].
      apply existsb_exists in E as (x & Hx & Heq).
      apply String.eqb_eq in Heq. subst x. contradiction.
    + cbn [files with_files with_QUEUES]. rewrite He. simpl. now rewrite Hf.
    + reflexivity.
    + reflexivity.
    + reflexivity.
  - split; [reflexivity|]. split; [|split; [|split; [|split; [|split]]]].
    + intros k Hin. cbn [QUEUES with_QUEUES]. rewrite fold_set_get.
      assert (E : existsb (String.eqb k) (nm :: aliases) = true)
        by (apply existsb_exists; exists k; split;
            [assumption | apply String.eqb_refl]).
      now rewrite E.
    + intros k Hin. cbn [QUEUES with_QUEUES]. rewrite fold_set_get.
      destruct (existsb (String.eqb k) (nm :: aliases)) eqn:E; [|reflexivity].
      apply existsb_exists in E as (x & Hx & Heq).
      apply String.eqb_eq in Heq. subst x. contradiction.
    + simpl. now rewrite obj_get_set.
    + congruence.
    + intros k Hne. simpl. now apply obj_get_set_other.
    + reflexivity.
Qed.

(** ** What the HTTP handler never does *)


Section NeverDoes.

Variable getKey : string -> string.
Variable dispatcheStartAt : Z.


(** X19: a GET notifies no waiter and writes no file: whatever it is
    answered, the files, the queues and the promise counter are as
    before, and so are the key set of the request table and the waiters
    of every request. *)
Theorem GET_touches_no_waiter
    (clk : Clock) (st st' : State) (request : Request)
    (out : outcome Response) (effects : list Effect) :
  method request = "GET" ->
  httpHandler getKey dispatcheStartAt clk st request = (out, st', effects) ->
  effects = [] /\ files st' = files st /\ QUEUES st' = QUEUES st /\
  promises st' = promises st /\
  forall k, option_map handlers (obj_get k (REQUESTS st'))
            = option_map handlers (obj_get k (REQUESTS st)).
Proof.
  intros HG. unfold httpHandler. rewrite HG. simpl.
  destruct (_ || _).
  - intros [= <- <- <-]. repeat split.
  - destruct (handleRequestNextInQueue clk st request) as [o st1] eqn:Hrun.
    intros [= <- <- <-].
    unfold handleRequestNextInQueue in Hrun.
    destruct (getClient (now_client clk) st request) as [[client|] st0] eqn:Hc.
    + pose proof (getClient_promises _ _ _ _ _ Hc) as HP0.
      apply getClient_frame in Hc as (HR0 & HF0 & _ & HQ0).
      destruct (getNextInQueue _ _ st0 _) as [[r|m0] st2] eqn:Hnext.
      * apply getNextInQueue_frame in Hnext as (HR & HQ & HP & HF & _).
        destruct (next r) as [nxt|]; injection Hrun as <- <-; simpl;
          rewrite ?HR, ?HQ, ?HP, ?HF, ?HR0, ?HQ0, ?HP0, ?HF0;
          repeat split; auto.
        intros k. rewrite obj_get_update.
        destruct (String.eqb_spec k (key nxt)) as [->|Hne]; [|reflexivity].
        now destruct (obj_get (key nxt) (REQUESTS st)).
      * apply getNextInQueue_frame in Hnext as (HR & HQ & HP & HF & _).
        injection Hrun as <- <-.
        rewrite HR, HQ, HP, HF, HR0, HQ0, HP0, HF0. repeat split.
    + pose proof (getClient_promises _ _ _ _ _ Hc) as HP0.
      apply getClient_frame in Hc as (HR0 & HF0 & _ & HQ0).
      injection Hrun as <- <-. rewrite HR0, HF0, HQ0, HP0. repeat split.
Qed.

End NeverDoes.

(** ** The fetcher's User-Agent *)

Lemma Qfloor_unit (x : Q) : (0 <= x)%Q -> (x < 1)%Q -> Qfloor x = 0.
Proof.
  intros H0 H1.
  pose proof (Qfloor_le x) as Hle. pose proof (Qlt_floor x) as Hlt.
  assert (Ha : (inject_Z (Qfloor x) < 1)%Q) by (eapply Qle_lt_trans; eauto).
  assert (Hb : (0 < inject_Z (Qfloor x + 1))%Q) by (eapply Qle_lt_trans; eauto).
  change 1%Q with (inject_Z 1) in Ha. change 0%Q with (inject_Z 0) in Hb.
  rewrite <- Zlt_Qlt in Ha. rewrite <- Zlt_Qlt in Hb. lia.
Qed.

Lemma pick_spec {A} (arr : list A) (random : Q) :
  (0 <= random)%Q -> (random < 1)%Q ->
  pick arr random = if Qeq_bool random 0 then nth_error arr 0 else None.
Proof.
  intros H0 H1. unfold pick, js_rem.
  destruct arr as [|a arr].
  - simpl. now destruct (Qeq_bool random 0).
  - set (n := Z.of_nat (List.length (a :: arr))).
    assert (Hn : 1 <= n) by (subst n; simpl List.length; lia).
    assert (E : (n =? 0) = false) by (apply Z.eqb_neq; lia). rewrite E.
    assert (HnQ : (1 <= inject_Z n)%Q)
      by (change 1%Q with (inject_Z 1); now rewrite <- Zle_Qle).
    assert (HnQ0 : (0 < inject_Z n)%Q) by (eapply Qlt_le_trans; [|exact HnQ]; reflexivity).
    assert (Hd0 : (0 <= random / inject_Z n)%Q).
    { apply Qle_shift_div_l; [assumption|]. now rewrite Qmult_0_l. }
    assert (Hd1 : (random / inject_Z n < 1)%Q).
    { apply Qlt_shift_div_r; [assumption|]. rewrite Qmult_1_l.
      eapply Qlt_le_trans; eauto. }
    assert (Ht : Qtrunc (random / inject_Z n) = 0).
    { unfold Qtrunc. rewrite (proj2 (Qle_bool_iff _ _) Hd0).
      now apply Qfloor_unit. }
    rewrite Ht.
    assert (Hq : (random - inject_Z n * inject_Z 0 == random)%Q) by ring.
    unfold array_at.
    set (q := (random - inject_Z n * inject_Z 0)%Q) in *.
    assert (Hf : Qfloor q = 0).
    { apply Qfloor_unit; rewrite Hq; assumption. }
    rewrite Hf. simpl.
    assert (Hb : Qeq_bool q (inject_Z 0) = Qeq_bool random 0).
    { destruct (Qeq_bool random 0) eqn:Er.
      - apply Qeq_bool_iff. apply Qeq_bool_iff in Er. now rewrite Hq.
      - destruct (Qeq_bool q (inject_Z 0)) eqn:Eq; [|reflexivity].
        apply Qeq_bool_iff in Eq. rewrite Hq in Eq.
        apply Qeq_bool_iff in Eq. change (inject_Z 0) with 0%Q in Eq.
        congruence. }
    rewrite Hb. now destruct (Qeq_bool random 0).
Qed.

(** X20: [pick] returns the first element of the array when
    [Math.random()] returns exactly 0 and [undefined] for every other
    value, so no other platform or browser is ever chosen; for two random
    values that are not zero the [user-agent] sent upstream is
    [Mozilla/5.0 (undefinedundefined]. *)
Theorem pick_never_rotates (random1 random2 : Q) :
  (0 <= random1)%Q -> (random1 < 1)%Q ->
  (0 <= random2)%Q -> (random2 < 1)%Q ->
  (forall (A : Type) (arr : list A),
     pick arr random1 =
     if Qeq_bool random1 0 then nth_error arr 0 else None) /\
  (~ (random1 == 0)%Q -> ~ (random2 == 0)%Q ->
   user_agent random1 random2 = "Mozilla/5.0 (undefinedundefined").
Proof.
  intros H1 H1' H2 H2'. split.
  - intros A arr. now apply pick_spec.
  - intros N1 N2. unfold user_agent.
    rewrite !pick_spec by assumption.
    destruct (Qeq_bool random1 0) eqn:E1;
      [apply Qeq_bool_iff in E1; contradiction|].
    destruct (Qeq_bool random2 0) eqn:E2;
      [apply Qeq_bool_iff in E2; contradiction|].
    reflexivity.
Qed.

(** ** Coalescing and bookkeeping *)

(** X21: two enqueues for the same path and query through hosts of one
    queue, with nothing cached, make one request: the second finds the
    request the first created and joins it, so the table holds the key
    once, with the fields of the first enqueue and both callers as
    waiters; the [href], [headers] and [expire] of the second caller play
    no part. *)
Theorem POST_coalesces
    (getKey : string -> string) (clk1 clk2 : Clock) (st : State)
    (q1 q2 : RequestQueue) (b1 b2 : PostBody) :
  let k := name q1 ++ "/" ++ getKey (pathname b1 ++ search b1) in
  let st1 := snd (POST getKey clk1 st q1 b1) in
  let st2 := snd (POST getKey clk2 st1 q2 b2) in
  obj_get k (REQUESTS st) = None ->
  obj_get k (files st) = None ->
  name q2 = name q1 ->
  pathname b2 ++ search b2 = pathname b1 ++ search b1 ->
  obj_get k (REQUESTS st2) =
    Some (mkRequest k (b_href b1) (b_headers b1) (perf_now clk1) None
            (name q1)
            (set_add (caller_handler st1 (reply b2))
               [caller_handler st (reply b1)]) 0) /\
  keys (REQUESTS st2) = keys (REQUESTS st1) /\
  res_headers (fst (POST getKey clk2 st1 q2 b2)) = [("x-request-key", k)].
Proof.
  intros k st1 st2 Hreq Hfile Hname Hpath.
  assert (HP1 : POST getKey clk1 st q1 b1 = enqueue clk1 st q1 k b1).
  { unfold POST. fold k. rewrite Hreq. unfold read_cache. now rewrite Hfile. }
  destruct (enqueue_REQUESTS clk1 st q1 k b1) as (HR1 & _).
  assert (Hget1 : obj_get k (REQUESTS st1) =
            Some (mkRequest k (b_href b1) (b_headers b1) (perf_now clk1) None
                    (name q1) [caller_handler st (reply b1)] 0)).
  { subst st1. rewrite HP1, HR1. apply obj_get_set. }
  assert (HP2 : POST getKey clk2 st1 q2 b2 =
            buildResponse st1
              (mkRequest k (b_href b1) (b_headers b1) (perf_now clk1) None
                 (name q1) [caller_handler st (reply b1)] 0) (reply b2)).
  { unfold POST. rewrite Hname, Hpath. fold k. now rewrite Hget1. }
  subst st2. rewrite HP2. unfold buildResponse, caller_handler.
  destruct (if truthy_str (reply b2) then reply b2 else None) as [url|];
    cbn [fst snd key REQUESTS with_REQUESTS with_promises res_headers];
    unfold add_handler; cbn [key]; rewrite Hget1; cbn [handlers];
    rewrite obj_get_set, keys_obj_set, Hget1; repeat split.
Qed.



(** * Further evaluations *)

Ltac solve_table_ok :=
  unfold table_ok; simpl; split;
  [ repeat constructor; simpl; intuition discriminate
  | split;
    [ repeat (constructor;
              [ unfold request_ok; simpl; repeat split;
                [ discriminate
                | repeat constructor; simpl; intuition discriminate
                | repeat constructor; simpl; lia
                | eexists; split; reflexivity ] | ]);
      constructor
    | apply queues_ok_Forall;
      repeat (constructor; [eexists; split; reflexivity | ]); constructor ] ].

Lemma st_three_ok : table_ok st_three.
Proof. solve_table_ok. Qed.

Lemma st_two_ok : table_ok st_two.
Proof. solve_table_ok. Qed.


(** A stored string with an empty name, a value missing, a name met
    twice and an expired entry. *)
Lemma decoded_sample :
  decodeTimers 1700000100000
    (Some ",7,a,,b,1700000130000,c,1700000099000,b,1700000140000")
  = [("b", 1700000140000)] /\
  1700000140000 <> 0 /\ 1700000100000 < 1700000140000.
Proof.
  split; [reflexivity|].
  exact (proj2 (proj2 (decodeTimers_wellformed 1700000100000
                         (Some ",7,a,,b,1700000130000,c,1700000099000,b,1700000140000")))
           "b" 1700000140000 eq_refl).
Defined.

(** A start on the sample stores, then an enqueue, a dispatch, the
    delivery and a sweep. *)
Lemma reachable_sample :
  start 1700000100000 sample_stored [] = Returned st_started /\
  table_ok (run sample_getKey 0 sample_events st_started).
Proof.
  assert (H : start 1700000100000 sample_stored [] = Returned st_started)
    by (vm_compute; reflexivity).
  split; [exact H|].
  exact (reachable_table_ok sample_getKey 0 _ _ _ _ sample_events H).
Defined.

(** A dispatch on [st_three] at the sample clock: half a minute of
    cooldown, still read 20 s later. *)
Lemma cooldown_sample :
  obj_get "goodreads.com"
    (decodeTimers 1700000120000
       (obj_get "aF7my75$"
          (localStorage
             (snd (getNextInQueue 1700000100000 1700000100000 st_three
                     "aF7my75$")))))
  = Some 1700000130000.
Proof.
  destruct (getNextInQueue_sets_cooldown 1700000100000 1700000100000 st_three
              (snd (getNextInQueue 1700000100000 1700000100000 st_three
                      "aF7my75$"))
              "aF7my75$"
              (mkNext (Some (sample_request 5 (Some 1700000000000)
                               "goodreads.com/c")) 2)
              (sample_request 5 (Some 1700000000000) "goodreads.com/c")
              eq_refl eq_refl)
    as (q & Hq & _ & _ & Hcool).
  injection Hq as <-.
  apply (Hcool ltac:(split; [discriminate | reflexivity])
               ltac:(discriminate) 1700000120000 ltac:(reflexivity)).
Defined.


(** The dispatch of [st_three]: request c, started before, has one more
    attempt and the time of the dispatch. *)
Lemma dispatch_sample :
  exists r n,
    body (mkResponse 200 json_headers
            (NextJson "goodreads.com/c" "https://goodreads.com/lol?w=6" None 2))
      = NextJson (key r) (href r) (headers r) n /\
    obj_get (key r)
      (REQUESTS
         (snd (handleRequestNextInQueue sample_clock st_three
                 (get_request "/" [("x-client-id", "aF7my75$")]))))
      = Some (dispatched 1700000100000 r).
Proof.
  destruct (dispatch_marks_request sample_clock st_three
              (snd (handleRequestNextInQueue sample_clock st_three
                      (get_request "/" [("x-client-id", "aF7my75$")])))
              (get_request "/" [("x-client-id", "aF7my75$")])
              (mkResponse 200 json_headers
                 (NextJson "goodreads.com/c" "https://goodreads.com/lol?w=6"
                    None 2))
              st_three_ok eq_refl eq_refl)
    as (r & n & Hbody & _ & Hget & _).
  exists r, n. split; [exact Hbody | exact Hget].
Defined.

(** Request a of [st_three] was started 2 s before the sample clock: the
    dispatch is not for it. *)
Lemma in_flight_sample :
  body (mkResponse 200 json_headers
          (NextJson "goodreads.com/c" "https://goodreads.com/lol?w=6" None 2))
  <> NextJson "goodreads.com/a" "https://goodreads.com/lol?w=6" None 2.
Proof.
  refine (in_flight_not_dispatched sample_clock st_three
            (snd (handleRequestNextInQueue sample_clock st_three
                    (get_request "/" [("x-client-id", "aF7my75$")])))
            (get_request "/" [("x-client-id", "aF7my75$")])
            (mkResponse 200 json_headers
               (NextJson "goodreads.com/c" "https://goodreads.com/lol?w=6"
                  None 2))
            "goodreads.com/a"
            (sample_request 3 (Some 1700000098000) "goodreads.com/a")
            1700000098000 st_three_ok eq_refl eq_refl _ eq_refl
            "https://goodreads.com/lol?w=6" None 2).
  reflexivity.
Defined.

(** An enqueue on [st_empty], where nothing is pending or cached. *)
Lemma POST_creates_sample :
  exists res st',
    POST sample_getKey sample_clock st_empty goodreads (post_body None None)
      = (res, st') /\
    res = mkResponse 200 [("x-request-key", sample_key)] (PromiseStream 0) /\
    option_map handlers (obj_get sample_key (REQUESTS st')) = Some [Resolve 0].
Proof.
  destruct (POST_creates_request sample_getKey sample_clock st_empty goodreads
              (post_body None None) eq_refl eq_refl)
    as (res & st' & HP & Hres & Hget & _).
  exists res, st'. split; [exact HP|]. split; [exact Hres|].
  exact (f_equal (option_map handlers) Hget).
Defined.

(** An enqueue for a key whose cache path is a directory. *)
Lemma POST_directory_sample :
  POST sample_getKey sample_clock
    (with_REQUESTS [] st_dir_pending) goodreads (post_body None None)
  = (fail 500 "goodreads.com//lol?w=6 is not a file",
     with_REQUESTS [] st_dir_pending).
Proof.
  exact (proj1 (POST_cache_errors sample_getKey sample_clock
                  (with_REQUESTS [] st_dir_pending) goodreads
                  (post_body None None) directory eq_refl eq_refl) eq_refl).
Defined.


(** After the delivery for request b of [st_three], a second delivery
    for it is answered 404. *)
Lemma delivered_once_sample :
  handleRequestResponse sample_clock
    (snd (fst (handleRequestResponse sample_clock st_three
                 (delivery "/goodreads.com/b" "200") "goodreads.com/b")))
    (delivery "/goodreads.com/b" "200") "goodreads.com/b"
  = (Returned NOT_FOUND,
     snd (fst (handleRequestResponse sample_clock st_three
                 (delivery "/goodreads.com/b" "200") "goodreads.com/b")),
     []).
Proof.
  apply (delivery_is_local_and_once sample_clock st_three _
           (delivery "/goodreads.com/b" "200") "goodreads.com/b"
           (sample_request 7.5 None "goodreads.com/b")
           (Returned EMPTY)
           (snd (handleRequestResponse sample_clock st_three
                   (delivery "/goodreads.com/b" "200") "goodreads.com/b"))
           eq_refl eq_refl).
Defined.

(** The body delivered for the pending request of [st_cached_pending]
    is served to an enqueue that accepts one second of age. *)
Lemma delivered_served_sample :
  POST sample_getKey sample_clock
    (snd (fst (handleRequestResponse sample_clock st_cached_pending
                 (delivery "/goodreads.com//lol?w=6" "200") sample_key)))
    goodreads (post_body (Some 1000) None)
  = (mkResponse 200 [("x-from-cache", sample_key)] (FileStream sample_bytes),
     snd (fst (handleRequestResponse sample_clock st_cached_pending
                 (delivery "/goodreads.com//lol?w=6" "200") sample_key))).
Proof.
  refine (proj1 (delivered_body_is_served sample_getKey sample_clock
                   sample_clock st_cached_pending _
                   (delivery "/goodreads.com//lol?w=6" "200")
                   (mkRequest sample_key "https://goodreads.com/lol?w=6" None
                      12.5 None "goodreads.com" [Resolve 0] 0)
                   (snd (handleRequestResponse sample_clock st_cached_pending
                           (delivery "/goodreads.com//lol?w=6" "200")
                           sample_key))
                   goodreads (post_body (Some 1000) None)
                   eq_refl eq_refl eq_refl) _).
  right. reflexivity.
Defined.


(** Three answers 500, then 200: four requests, waits of 750 and
    1500 ms before the last two. *)
Lemma backoff_sample :
  sendReply sample_post 0 [500; 500; 500; 200]
  = ([Fetch sample_post; Fetch sample_post; SetTimeout 750; Fetch sample_post;
      SetTimeout 1500; Fetch sample_post], true).
Proof.
  exact (sendReply_backoff_schedule sample_post 2 200 [] ltac:(discriminate)).
Defined.

(** Registering a queue with an alias on [st_empty]. *)
Lemma registerQueue_sample :
  match registerQueue 1700000100000 "beeceptor.com" 1000 ["www.beeceptor.com"]
          st_empty with
  | Returned (q, st') =>
      obj_get "www.beeceptor.com" (QUEUES st') = Some beeceptor /\
      obj_get "goodreads.com" (QUEUES st') = Some goodreads
  | Thrown _ => False
  end.
Proof.
  pose proof (registerQueue_registers 1700000100000 "beeceptor.com" 1000
                ["www.beeceptor.com"] st_empty) as H.
  destruct (registerQueue 1700000100000 "beeceptor.com" 1000
              ["www.beeceptor.com"] st_empty) as [[q st']|m].
  - destruct H as (-> & Hin & Hout & _). split.
    + apply Hin. right. now left.
    + rewrite Hout; [reflexivity|]. simpl. intuition discriminate.
  - destruct H as (e & He & _). discriminate He.
Defined.


(** The dispatch of [st_three] leaves the waiters of request c alone. *)
Lemma GET_frame_sample :
  option_map handlers
    (obj_get "goodreads.com/c"
       (REQUESTS
          (snd (fst (httpHandler sample_getKey 0 sample_clock st_three
                       (get_request "/" [("x-client-id", "aF7my75$")]))))))
  = Some [Resolve 0; Reply "https://valid.domain.tld/webhook"].
Proof.
  destruct (GET_touches_no_waiter sample_getKey 0 sample_clock st_three _
              (get_request "/" [("x-client-id", "aF7my75$")]) _ _
              eq_refl eq_refl)
    as (_ & _ & _ & _ & H).
  rewrite H. reflexivity.
Defined.

(** Two values of [Math.random()] that are not zero. *)
Lemma user_agent_sample :
  user_agent 0.25 0.5 = "Mozilla/5.0 (undefinedundefined".
Proof.
  refine (proj2 (pick_never_rotates 0.25 0.5 _ _ _ _) _ _);
    unfold Qle, Qlt, Qeq; simpl; lia.
Defined.

(** Two enqueues of one URL on [st_empty], the second with a reply
    address. *)
Lemma coalescing_sample :
  option_map handlers
    (obj_get sample_key
       (REQUESTS
          (snd (POST sample_getKey sample_clock
                  (snd (POST sample_getKey sample_clock st_empty goodreads
                          (post_body None None)))
                  goodreads
                  (post_body (Some 5) (Some "https://valid.domain.tld/webhook"))))))
  = Some [Resolve 0; Reply "https://valid.domain.tld/webhook"].
Proof.
  exact (f_equal (option_map handlers)
           (proj1 (POST_coalesces sample_getKey sample_clock sample_clock
                     st_empty goodreads goodreads (post_body None None)
                     (post_body (Some 5)
                        (Some "https://valid.domain.tld/webhook"))
                     eq_refl eq_refl eq_refl eq_refl))).
Defined.


